(** * CortexDev local project analyzer: classifier and tree builder

    A shallow embedding of [cortex-dev-analyzer.py] and the properties of
    its two core functions, [is_text_file] and [build_tree_from_paths],
    together with the exit behaviour of the script.

    Conventions of the model.
    - A Python [str] is the [string] of its UTF-8 bytes: a character of
      ASCII is one byte below 128, any other character a sequence of
      bytes from 128 on.  The comparison of two strings by code points
      is then the byte-wise lexicographic one ([String.le]), and the
      bytes of ".", "/" and "\" belong to no other character.
    - [str.lower] is Unicode's case mapping.  The program compares its
      result with lists of ASCII strings only, and the characters whose
      lowercase is ASCII are the capitals A to Z and U+212A KELVIN SIGN
      (lowercase "k"): [lower] maps these as [str.lower] does and keeps
      every other character, whose lowercase is outside ASCII as well
      ([lower_ascii] below).
    - [pathlib] and [os.path] are the POSIX flavours ([os.sep] is "/");
      [PurePath.suffix] is the one of Python 3.9 to 3.13.
    - A Python [dict] is an association list in insertion order.
    - A computation that can raise returns an [outcome]; [sys.exit] is the
      outcome [SystemExit], which [except Exception] does not catch.
    - The calls to the file system and the message shown at the end are
      logged; what [print] writes to the console is not. *)

From Stdlib Require Import ZArith Ascii.
From Stdlib.Strings Require Import Byte.
From Stdlib Require String.
From stdpp Require Import base option list sorting strings gmap.

Set Warnings "-register-all".
Local Open Scope Z_scope.

(** ** Exceptions and outcomes *)

Inductive py_exception : Type :=
  | FileNotFoundError
  | PermissionError
  | IsADirectoryError
  | OSError
  | ValueError
  | TypeError
  | AttributeError
  | IndexError
  | KeyboardInterrupt.

(** [IOError] is an alias of [OSError]; the first three are its subclasses. *)
Definition is_OSError (e : py_exception) : bool :=
  match e with
  | FileNotFoundError | PermissionError | IsADirectoryError | OSError => true
  | _ => false
  end.

(** Everything but [KeyboardInterrupt] derives from [Exception]. *)
Definition is_Exception (e : py_exception) : bool :=
  match e with
  | KeyboardInterrupt => false
  | _ => true
  end.

Inductive outcome (A : Type) : Type :=
  | Return (a : A)
  | Raise (e : py_exception)
  | SystemExit (code : Z).
Arguments Return {A} a.
Arguments Raise {A} e.
Arguments SystemExit {A} code.

#[global] Instance outcome_ret : MRet outcome := @Return.
#[global] Instance outcome_bind : MBind outcome := λ A B k m,
  match m with
  | Return a => k a
  | Raise e => Raise e
  | SystemExit c => SystemExit c
  end.
#[global] Instance outcome_fmap : FMap outcome := λ A B f m,
  match m with
  | Return a => Return (f a)
  | Raise e => Raise e
  | SystemExit c => SystemExit c
  end.

(** ** Data model *)

(** The public tree: [{"key", "title", "type": "file"}] and
    [{"key", "title", "type": "folder", "children"}]. *)
Inductive tree_node : Type :=
  | FileNode (key title : string)
  | FolderNode (key title : string) (children : list tree_node).

(** The document written to [cortex-snapshot.json]. *)
Record snapshot : Type := MkSnapshot {
  version : string;
  createdAt : string;
  tree : list tree_node;
  files : gmap string string
}.

(** ** File-system effects

    What the operating system answers when a file is opened for reading
    and read. The calls made are logged, so that "the file is not opened"
    is a statement about the log. *)

#[global] Instance byte_eq_decision : EqDecision byte := Byte.byte_eq_dec.

Inductive file_state : Type :=
  | Readable (content : list byte)
  | OpenFails (e : py_exception)
  | ReadFails (e : py_exception).

Definition filesystem : Type := string → file_state.

Inductive fs_event : Type :=
  | EvOpen (path : string)
  | EvRead (n : option nat)
  | EvClose
  | EvWrite (path : string) (doc : snapshot)
  | EvShowMessage (title message : string) (is_error : bool).

Definition io (A : Type) : Type := (outcome A * list fs_event)%type.

Module IO.
Definition ret {A} (a : A) : io A := (Return a, []).

Definition bind {A B} (m : io A) (k : A → io B) : io B :=
  match m with
  | (Return a, t) => let '(r, t') := k a in (r, t ++ t')
  | (Raise e, t) => (Raise e, t)
  | (SystemExit c, t) => (SystemExit c, t)
  end.

(** [try: body  except <classes matching catches> as e: handler e] *)
Definition try_except {A} (body : io A) (catches : py_exception → bool)
    (handler : py_exception → io A) : io A :=
  match body with
  | (Raise e, t) =>
      if catches e then let '(r, t') := handler e in (r, t ++ t')
      else (Raise e, t)
  | other => other
  end.

(** A computation without effects on the file system. *)
Definition lift {A} (m : outcome A) : io A := (m, []).

(** [with open(path, 'rb') as f: body f]: the handle is closed on every
    way out of the body. The handle is the state of the opened file. *)
Definition with_open {A} (fs : filesystem) (path : string)
    (body : file_state → io A) : io A :=
  match fs path with
  | OpenFails e => (Raise e, [EvOpen path])
  | st => let '(r, t) := body st in (r, EvOpen path :: t ++ [EvClose])
  end.

(** [f.read(n)] and [f.read()] on an opened file: at most [n] bytes,
    or all of them. *)
Definition read (f : file_state) (n : option nat) : io (list byte) :=
  match f with
  | Readable content =>
      (Return (from_option (λ k, take k content) content n), [EvRead n])
  | ReadFails e => (Raise e, [EvRead n])
  | OpenFails e => (Raise e, [])
  end.
End IO.

#[global] Instance io_ret : MRet io := @IO.ret.
#[global] Instance io_bind : MBind io := λ A B k m, IO.bind m k.

(** ** Strings *)

Definition ascii_lower (c : ascii) : ascii :=
  let n := N_of_ascii c in
  if ((65 <=? n) && (n <=? 90))%N then ascii_of_N (n + 32) else c.

(** The UTF-8 bytes E2 84 AA of U+212A KELVIN SIGN, the one character
    outside ASCII whose lowercase is in ASCII: ['K'.lower() == 'k']. *)
Definition kelvin_sign : string :=
  String "226" (String "132" (String "170" EmptyString)).

(** [str.lower]: the capitals A to Z and the Kelvin sign become the
    small ASCII letters; the other characters of ASCII have no case and
    are kept.  A character outside ASCII other than the Kelvin sign is
    kept as well: [str.lower] keeps it or maps it to characters outside
    ASCII, so that the two results equal the same ASCII strings: none. *)
Fixpoint lower (s : string) : string :=
  match s with
  | EmptyString => EmptyString
  | String c r =>
      match r with
      | String c1 (String c2 r') =>
          if bool_decide (c = "226" ∧ c1 = "132" ∧ c2 = "170")%char
          then String "k" (lower r')
          else String (ascii_lower c) (lower r)
      | _ => String (ascii_lower c) (lower r)
      end
  end.

(** [s.rfind(c)]: the highest index of [c] in [s], or [-1]. *)
Fixpoint rfind (c : ascii) (s : string) : Z :=
  match s with
  | EmptyString => -1
  | String a r =>
      let i := rfind c r in
      if 0 <=? i then i + 1
      else if bool_decide (a = c) then 0 else -1
  end.

(** [s[i:]] for [0 <= i] *)
Fixpoint str_drop (i : nat) (s : string) : string :=
  match i, s with
  | O, _ => s
  | S i', EmptyString => EmptyString
  | S i', String _ r => str_drop i' r
  end.

(** [s.replace(a, b)] for one-character [a] and [b] *)
Fixpoint replace_char (a b : ascii) (s : string) : string :=
  match s with
  | EmptyString => EmptyString
  | String c r => String (if bool_decide (c = a) then b else c) (replace_char a b r)
  end.

(** [s.split(sep)] for a one-character separator: never empty. *)
Fixpoint split_on (sep : ascii) (s : string) : list string :=
  match s with
  | EmptyString => [EmptyString]
  | String c r =>
      if bool_decide (c = sep) then EmptyString :: split_on sep r
      else match split_on sep r with
           | [] => [String c EmptyString]
           | w :: ws => String c w :: ws
           end
  end.

Definition starts_with (c : ascii) (s : string) : bool :=
  match s with
  | String a _ => bool_decide (a = c)
  | EmptyString => false
  end.

Fixpoint ends_with (c : ascii) (s : string) : bool :=
  match s with
  | EmptyString => false
  | String a EmptyString => bool_decide (a = c)
  | String _ r => ends_with c r
  end.

(** ** [posixpath] and [pathlib.PurePosixPath] *)

Definition sep : ascii := "/"%char.

(** [os.path.join(a, b)] *)
Definition os_path_join (a b : string) : string :=
  if starts_with sep b then b
  else if bool_decide (a = "") || ends_with sep a then a +:+ b
  else a +:+ "/" +:+ b.

(** A parsed path: the root ("", "/" or "//") and the segments after it. *)
Record PurePath : Type := MkPath { root : string; tail : list string }.

(** [posixpath.splitroot] *)
Definition splitroot (p : string) : string * string :=
  match p with
  | String "/" (String "/" (String "/" r)) => ("/", String "/" (String "/" r))
  | String "/" (String "/" r) => ("//", r)
  | String "/" r => ("/", r)
  | _ => ("", p)
  end.

(** [Path(s)]: empty segments and "." segments are dropped. *)
Definition Path (s : string) : PurePath :=
  let '(rt, rel) := splitroot s in
  MkPath rt (filter (λ x, x ≠ "" ∧ x ≠ ".") (split_on sep rel)).

(** [p.parts] *)
Definition parts (p : PurePath) : list string :=
  if bool_decide (root p = "") then tail p else root p :: tail p.

(** [p.name]: the last segment, or "" when there is none. *)
Definition name (p : PurePath) : string := default "" (last (tail p)).

(** [p.suffix] *)
Definition suffix (p : PurePath) : string :=
  let nm := name p in
  let i := rfind "." nm in
  if (0 <? i) && (i <? Z.of_nat (String.length nm) - 1)
  then str_drop (Z.to_nat i) nm else "".

(** [str(p)], which is also what [open] receives for a path object. *)
Definition fspath (p : PurePath) : string :=
  match root p, tail p with
  | "", [] => "."
  | rt, tl => rt +:+ String.concat "/" tl
  end.

(** ** Configuration *)

Definition DEFAULT_IGNORE_DIRS : list string :=
  [".git"; "__pycache__"; "node_modules"; "venv"; ".venv";
   "dist"; "build"; ".idea"; ".vscode"; "target"; "out"].

Definition BINARY_FILE_EXTENSIONS : list string :=
  [".png"; ".jpg"; ".jpeg"; ".gif"; ".bmp"; ".ico"; ".svg";
   ".zip"; ".gz"; ".tar"; ".rar";
   ".pdf"; ".doc"; ".docx"; ".xls"; ".xlsx"; ".ppt"; ".pptx";
   ".exe"; ".dll"; ".so"; ".o"; ".a";
   ".jar"; ".class";
   ".mp3"; ".wav"; ".flac";
   ".mp4"; ".mkv"; ".avi"; ".mov";
   ".ttf"; ".woff"; ".woff2"; ".eot";
   ".db"; ".sqlite"; ".sqlite3"].

Definition OUTPUT_FILENAME : string := "cortex-snapshot.json".

Definition FORCE_TEXT_FILE_EXTENSIONS : list string :=
  [".json"; ".yaml"; ".yml"; ".md"; ".txt"; ".log"; ".xml"; ".ini"; ".cfg"; ".conf";
   ".py"; ".js"; ".jsx"; ".ts"; ".tsx"; ".html"; ".css"; ".scss"; ".less";
   ".java"; ".cs"; ".c"; ".cpp"; ".h"; ".hpp"; ".go"; ".rb"; ".rs"; ".sh";
   ".vue"; ".svelte"; ".toml"; ".env"].

(** ** The classifier *)

(** The [try] block of [is_text_file]: open, read at most 1024 bytes, and
    answer [False] on a NUL byte; without one, control leaves the block
    and reaches the final [return True]. *)
Definition sniff (fs : filesystem) (file_path : PurePath) : io bool :=
  IO.with_open fs (fspath file_path) (λ f,
    chunk ← IO.read f (Some 1024%nat);
    if bool_decide (x00 ∈ chunk) then mret false else mret true).

Definition is_text_file (fs : filesystem) (file_path : PurePath) : io bool :=
  let file_ext := lower (suffix file_path) in
  if bool_decide (file_ext ∈ FORCE_TEXT_FILE_EXTENSIONS) then mret true
  else if bool_decide (file_ext ∈ BINARY_FILE_EXTENSIONS) then mret false
  else IO.try_except (sniff fs file_path) is_OSError (λ _, mret false).

(** ** The tree builder *)

(** The intermediate mapping: a segment is bound to [None] (a file) or to
    a nested [dict] (a folder). *)
Inductive value : Type :=
  | PyNone
  | PyDict (items : list (string * value)).

Abbreviation dict := (list (string * value)).

(** [d.get(k)] *)
Fixpoint dict_get (d : dict) (k : string) : option value :=
  match d with
  | [] => None
  | (k', v) :: r => if bool_decide (k' = k) then Some v else dict_get r k
  end.

(** [d[k] = v]: an existing key keeps its position, a new one goes last. *)
Fixpoint dict_set (d : dict) (k : string) (v : value) : dict :=
  match d with
  | [] => [(k, v)]
  | (k', v') :: r =>
      if bool_decide (k' = k) then (k, v) :: r else (k', v') :: dict_set r k v
  end.

(** The body of the loop over the sorted paths, on the segments [ps] of
    one path and the mapping [node] reached so far:
    [node = node.setdefault(part, {})] for each segment but the last, then
    [node[parts[-1]] = None]. The mapping is updated in place in the
    source; here the updated mapping is returned. [setdefault] on a
    segment bound to [None] yields [None], on which the next
    [setdefault] raises [AttributeError] and the final item assignment
    raises [TypeError]. *)
Fixpoint insert_parts (ps : list string) (node : dict) : outcome dict :=
  match ps with
  | [] => Raise IndexError
  | part :: rest =>
      match rest with
      | [] => Return (dict_set node part PyNone)
      | _ :: rest' =>
          match dict_get node part with
          | None =>
              sub ← insert_parts rest [];
              Return (dict_set node part (PyDict sub))
          | Some (PyDict sub) =>
              sub' ← insert_parts rest sub;
              Return (dict_set node part (PyDict sub'))
          | Some PyNone =>
              Raise (match rest' with [] => TypeError | _ => AttributeError end)
          end
      end
  end.

(** [sorted] on a list of strings. *)
Definition sorted (l : list string) : list string := merge_sort String.le l.

(** [sorted(node_dict.items())]: the keys of a [dict] are distinct, so the
    pairs are ordered by their key alone. *)
Definition sorted_items (d : dict) : list (string * value) :=
  merge_sort (λ x y, String.le x.1 y.1) d.

Definition build_dict (paths : list string) : outcome dict :=
  foldl (λ acc path, tree ← acc; insert_parts (parts (Path path)) tree)
        (Return []) (sorted paths).

(** The [key_path] of an entry [name] below [current_path]. *)
Definition key_path_of (current_path name : string) : string :=
  replace_char "\" "/"
    (if bool_decide (current_path ≠ "") then os_path_join current_path name
     else name).

Fixpoint value_height (v : value) : nat :=
  match v with
  | PyNone => O
  | PyDict items => S (foldr (λ kv h, Nat.max (value_height kv.2) h) O items)
  end.

(** The body of the loop of [format_tree] for one entry, [format_sub]
    standing for the recursive call. *)
Definition format_entry (format_sub : dict → string → list tree_node)
    (current_path : string) (entry : string * value) : tree_node :=
  let '(name, content) := entry in
  let key_path := key_path_of current_path name in
  match content with
  | PyNone => FileNode key_path name
  | PyDict sub => FolderNode key_path name (format_sub sub key_path)
  end.

(** [format_tree], with the recursion bounded by the nesting depth. *)
Fixpoint format_tree_rec (depth : nat) (node_dict : dict) (current_path : string)
    : list tree_node :=
  match depth with
  | O => []
  | S depth' =>
      format_entry (format_tree_rec depth') current_path <$> sorted_items node_dict
  end.

Definition format_tree (node_dict : dict) (current_path : string) : list tree_node :=
  format_tree_rec (value_height (PyDict node_dict)) node_dict current_path.

Definition build_tree_from_paths (paths : list string) : outcome (list tree_node) :=
  tree ← build_dict paths;
  Return (format_tree tree "").

(** ** The scan and the script *)

(** What [os.walk] finds on disk: plain files and directories. *)
Inductive fs_entry : Type :=
  | FsFile
  | FsDir (entries : list (string * fs_entry)).

Definition file_names (entries : list (string * fs_entry)) : list string :=
  omap (λ '(name, e), match e with FsFile => Some name | FsDir _ => None end)
       entries.

(** [os.walk(top, topdown=True)], for a caller that prunes the yielded
    [dirs] list in place down to the names satisfying [keep]: the walk
    reads that same list afterwards and only descends into what is left.
    Each step yields the directory and the files directly in it; a [top]
    that is not a directory yields nothing. *)
Fixpoint os_walk (keep : string → bool) (top : string) (dir : fs_entry)
    : list (string * list string) :=
  match dir with
  | FsFile => []
  | FsDir entries =>
      (top, file_names entries) ::
      flat_map (λ '(name, e),
                  match e with
                  | FsDir _ =>
                      if keep name then os_walk keep (os_path_join top name) e
                      else []
                  | FsFile => []
                  end) entries
  end.

(** The environment of one run. *)
Record environment : Type := MkEnv {
  cwd : string;                              (* [Path.cwd()] *)
  disk : fs_entry;                           (* what is at [cwd] *)
  open_file : filesystem;                    (* opening and reading a file *)
  script_name : string;                      (* [os.path.basename(__file__)] *)
  now : string;                              (* the UTC time, ISO format *)
  decode_utf8_ignore : list byte → string;   (* the codec, errors ignored *)
  write_error : option py_exception;         (* failure to write the output *)
  exception_text : py_exception → string     (* [str(e)] *)
}.

(** [p / key] *)
Definition truediv (p : PurePath) (key : string) : PurePath :=
  Path (os_path_join (fspath p) key).

(** [p.relative_to(other)] *)
Definition relative_to (p other : PurePath) : outcome PurePath :=
  if bool_decide (root p = root other ∧ tail other `prefix_of` tail p)
  then Return (MkPath "" (drop (length (tail other)) (tail p)))
  else Raise ValueError.

(** A [for] loop threading the variables it updates. *)
Fixpoint for_each {A S} (xs : list A) (body : S → A → io S) (s : S) : io S :=
  match xs with
  | [] => mret s
  | x :: r => s' ← body s x; for_each r body s'
  end.

(** [open(path, 'r', encoding='utf-8', errors='ignore')] and [f.read()] *)
Definition read_text (env : environment) (file_path : PurePath) : io string :=
  IO.with_open (open_file env) (fspath file_path) (λ f,
    raw ← IO.read f None;
    mret (decode_utf8_ignore env raw)).

Definition analyze_directory (env : environment) (root_path : PurePath)
    : io (list string * gmap string string) :=
  for_each
    (os_walk (λ d, bool_decide (d ∉ DEFAULT_IGNORE_DIRS)) (fspath root_path) (disk env))
    (λ st '(root, files),
       let current_path := Path root in
       for_each files
         (λ '(all_file_paths, text_file_contents) filename,
            if bool_decide (filename ∈ [script_name env; OUTPUT_FILENAME])
            then mret (all_file_paths, text_file_contents)
            else
              let file_path := truediv current_path filename in
              rel ← IO.lift (relative_to file_path root_path);
              let relative_path_str := replace_char sep "/" (fspath rel) in
              let all_file_paths := all_file_paths ++ [relative_path_str] in
              is_text ← is_text_file (open_file env) file_path;
              if is_text : bool then
                IO.try_except
                  (content ← read_text env file_path;
                   mret (all_file_paths,
                         <[relative_path_str := content]> text_file_contents))
                  is_Exception
                  (λ _, mret (all_file_paths, text_file_contents))
              else mret (all_file_paths, text_file_contents))
         st)
    ([], ∅).

(** [show_message_and_exit]: the message is shown (a failure of the GUI
    is swallowed there) and the script ends through [sys.exit]. *)
Definition show_message_and_exit {A} (title message : string) (is_error : bool)
    : io A :=
  (SystemExit (if is_error then 1 else 0), [EvShowMessage title message is_error]).

(** [open(output_path, 'w')] and [json.dump] *)
Definition write_snapshot (env : environment) (output_path : PurePath)
    (snapshot_data : snapshot) : io unit :=
  match write_error env with
  | Some e => (Raise e, [EvWrite (fspath output_path) snapshot_data])
  | None => (Return tt, [EvWrite (fspath output_path) snapshot_data])
  end.

Definition nl : string := String "010" "".

Definition main (env : environment) : io unit :=
  let project_root := Path (cwd env) in
  '(all_paths, text_contents) ← analyze_directory env project_root;
  _ ← (if bool_decide (all_paths = [])
       then show_message_and_exit "Анализ завершен"
              "В директории не найдено файлов для анализа. Snapshot не создан." false
       else mret tt);
  file_tree ← IO.lift (build_tree_from_paths all_paths);
  let snapshot_data := MkSnapshot "1.2.0" (now env) file_tree text_contents in
  let output_path := truediv project_root OUTPUT_FILENAME in
  _ ← write_snapshot env output_path snapshot_data;
  let final_message :=
    "Готово! Файл '" +:+ OUTPUT_FILENAME +:+ "' успешно создан." +:+ nl +:+ nl +:+
    "Теперь вы можете загрузить его в веб-интерфейс CortexDev." in
  show_message_and_exit "Анализ успешно завершен" final_message false.

(** The text shown for an exception that escaped [main]. *)
Definition error_message (env : environment) (e : py_exception) : string :=
  "[Критическая ошибка]" +:+ nl +:+
  "Произошла ошибка во время выполнения:" +:+ nl +:+ nl +:+ exception_text env e.

(** The [__main__] block. *)
Definition script (env : environment) : io unit :=
  IO.try_except (main env) is_Exception
    (λ e, show_message_and_exit "Критическая ошибка" (error_message env e) true).

(** How the interpreter ends: [sys.exit(c)] gives the exit code [c],
    falling off the end gives 0, and an exception that nothing caught
    ends the process with a traceback. *)
Inductive process_end : Type :=
  | Exited (code : Z)
  | Traceback (e : py_exception).

Definition process_status {A} (r : io A) : process_end :=
  match r.1 with
  | Return _ => Exited 0
  | SystemExit c => Exited c
  | Raise e => Traceback e
  end.

(** * Vocabulary of the properties *)

(** ** Characters *)

(** A byte that is a character of ASCII. *)
Definition is_ascii (c : ascii) : Prop := (N_of_ascii c < 128)%N.

(** The strings made of characters of ASCII and of Kelvin signs. *)
Inductive ascii_or_kelvin : string → Prop :=
  | aok_empty : ascii_or_kelvin EmptyString
  | aok_ascii (c : ascii) (r : string) :
      is_ascii c → ascii_or_kelvin r → ascii_or_kelvin (String c r)
  | aok_kelvin (r : string) :
      ascii_or_kelvin r → ascii_or_kelvin (kelvin_sign +:+ r).

(** ** Trees *)

Definition title (n : tree_node) : string :=
  match n with
  | FileNode _ t => t
  | FolderNode _ t _ => t
  end.

(** The keys of the File nodes, in the order of the tree. *)
Fixpoint file_keys_node (n : tree_node) : list string :=
  match n with
  | FileNode k _ => [k]
  | FolderNode _ _ children => children ≫= file_keys_node
  end.

Definition file_keys (nodes : list tree_node) : list string :=
  nodes ≫= file_keys_node.

(** The siblings below a node are in ascending order of title, at every
    depth. *)
Fixpoint node_sorted (n : tree_node) : Prop :=
  match n with
  | FileNode _ _ => True
  | FolderNode _ _ children =>
      Sorted String.le (title <$> children) ∧
      foldr (λ c acc, node_sorted c ∧ acc) True children
  end.

Definition tree_sorted (nodes : list tree_node) : Prop :=
  Sorted String.le (title <$> nodes) ∧ Forall node_sorted nodes.

(** The titles on the way from the root to each File node, in the
    order of the tree. *)
Fixpoint leaf_titles_node (n : tree_node) : list (list string) :=
  match n with
  | FileNode _ t => [[t]]
  | FolderNode _ t children => (t ::.) <$> (children ≫= leaf_titles_node)
  end.

Definition leaf_titles (nodes : list tree_node) : list (list string) :=
  nodes ≫= leaf_titles_node.

(** ** Mappings *)

(** The value reached from [v] along the segments [ps]. *)
Fixpoint lookup_path (ps : list string) (v : value) : option value :=
  match ps with
  | [] => Some v
  | p :: rest =>
      match v with
      | PyNone => None
      | PyDict d => dict_get d p ≫= lookup_path rest
      end
  end.

(** [ps] is recorded as a file. *)
Definition leaf (d : dict) (ps : list string) : Prop :=
  lookup_path ps (PyDict d) = Some PyNone.

(** The segment lists that lead to a file marker, in the order of the
    mapping. *)
Fixpoint leaves_value (v : value) : list (list string) :=
  match v with
  | PyNone => [[]]
  | PyDict items => items ≫= λ kv, (kv.1 ::.) <$> leaves_value kv.2
  end.

Definition leaves (d : dict) : list (list string) := leaves_value (PyDict d).

(** The keys of a mapping are distinct, at every depth: what Python
    guarantees of a [dict]. *)
Fixpoint keys_distinct (v : value) : Prop :=
  match v with
  | PyNone => True
  | PyDict items =>
      NoDup items.*1 ∧ foldr (λ kv acc, keys_distinct kv.2 ∧ acc) True items
  end.

(** Going down [node] along the segments [qs] meets [None] before the
    last segment: a file sits where [qs] needs a folder. *)
Fixpoint blocked (qs : list string) (node : dict) : bool :=
  match qs with
  | [] => false
  | q :: rest =>
      match rest with
      | [] => false
      | _ :: _ =>
          match dict_get node q with
          | Some PyNone => true
          | Some (PyDict sub) => blocked rest sub
          | None => false
          end
      end
  end.

(** ** The loop of the builder *)

(** One turn of the loop over the sorted paths. *)
Definition insert_path (acc : outcome dict) (path : string) : outcome dict :=
  tree ← acc; insert_parts (parts (Path path)) tree.

(** What going down through a file marker raises. *)
Definition collision_error (e : py_exception) : Prop :=
  e = TypeError ∨ e = AttributeError.

(** What the loop can raise: [IndexError] is [parts[-1]] on a path
    without segments. *)
Definition insert_error (e : py_exception) : Prop :=
  e = IndexError ∨ e = TypeError ∨ e = AttributeError.

(** ** Paths *)

Abbreviation chars := String.list_ascii_of_string.

(** The segments [l1] are the beginning of the longer [l2]. *)
Definition proper_prefix (l1 l2 : list string) : Prop :=
  l1 `prefix_of` l2 ∧ l1 ≠ l2.

(** The strict order of strings, and the order it induces on lists of
    segments: the first segment that differs decides, and a list comes
    before the lists that extend it. *)
Definition str_lt (s1 s2 : string) : Prop := String.le s1 s2 ∧ s1 ≠ s2.

Fixpoint segments_lt (l1 l2 : list string) : Prop :=
  match l1, l2 with
  | [], [] => False
  | [], _ :: _ => True
  | _ :: _, [] => False
  | x :: l1', y :: l2' => str_lt x y ∨ (x = y ∧ segments_lt l1' l2')
  end.

(** The order of two paths, segment by segment. *)
Definition path_lt (p q : string) : Prop :=
  segments_lt (parts (Path p)) (parts (Path q)).

(** A relative path in the form the scan produces: segments separated
    by single "/", none of them empty or ".", and no backslash. *)
Definition relative_path (p : string) : Prop :=
  Forall (λ s, s ≠ "" ∧ s ≠ "." ∧ "\"%char ∉ chars s) (split_on sep p).

(** The key that [format_tree] gives to the entry reached from
    [current_path] along the segments [ps]. *)
Definition key_of (current_path : string) (ps : list string) : string :=
  foldl key_path_of current_path ps.

(** What [format_tree] meets as [current_path] below the root, and as the
    name of an entry, when the paths are in normal form. *)
Definition plain_prefix (cur : string) : Prop :=
  cur ≠ "" ∧ ends_with sep cur = false ∧ ("\"%char ∉ chars cur).

Definition plain_segment (name : string) : Prop :=
  name ≠ "" ∧ (sep ∉ chars name) ∧ ("\"%char ∉ chars name).

(** ** Two runs of the script *)

(** A project of one Python file, in a directory that cannot be written. *)
Definition read_only_project : environment :=
  MkEnv "/home/u/proj" (FsDir [("a.py", FsFile)]) (λ _, Readable [x41])
        "cortex-dev-analyzer.py" "2026-11-04T00:00:00+00:00" (λ _, "A")
        (Some PermissionError) (λ _, "Permission denied").

(** A directory that holds nothing but [.git]. *)
Definition empty_project : environment :=
  MkEnv "/home/u/proj" (FsDir [(".git", FsDir [("config", FsFile)])])
        (λ _, Readable []) "cortex-dev-analyzer.py" "2026-11-04T00:00:00+00:00"
        (λ _, "") None (λ _, "").

(** ** Shape of the tree *)

(** Every folder of the subtree holds something. *)
Fixpoint populated_node (n : tree_node) : Prop :=
  match n with
  | FileNode _ _ => True
  | FolderNode _ _ children =>
      children ≠ [] ∧ foldr (λ c acc, populated_node c ∧ acc) True children
  end.

(** Every nested mapping holds something. *)
Fixpoint populated (v : value) : Prop :=
  match v with
  | PyNone => True
  | PyDict items =>
      foldr (λ kv acc, (kv.2 ≠ PyDict [] ∧ populated kv.2) ∧ acc) True items
  end.

(** The key of the entry [t] below the folder of key [cur]; the root has
    the empty key. *)
Definition child_key (cur t : string) : string :=
  if bool_decide (cur = "") then t else cur +:+ "/" +:+ t.

(** In the subtree, below a folder of key [cur], every key is the key of
    the parent, a "/" and the title; and every title is a plain
    segment. *)
Fixpoint keyed_under (cur : string) (n : tree_node) : Prop :=
  match n with
  | FileNode k t => k = child_key cur t ∧ plain_segment t
  | FolderNode k t children =>
      (k = child_key cur t ∧ plain_segment t) ∧
      foldr (λ c acc, keyed_under k c ∧ acc) True children
  end.

(** Every segment bound in the mapping, at any depth, satisfies [P]. *)
Fixpoint segments_all (P : string → Prop) (v : value) : Prop :=
  match v with
  | PyNone => True
  | PyDict items =>
      foldr (λ kv acc, (P kv.1 ∧ segments_all P kv.2) ∧ acc) True items
  end.

(** ** The scan *)

(** What is left of a directory tree once the directories whose name
    fails [keep_dir] and the files whose name fails [keep_file] are
    taken out, at every depth. *)
Fixpoint visible (keep_dir keep_file : string → bool) (e : fs_entry) : fs_entry :=
  match e with
  | FsFile => FsFile
  | FsDir entries =>
      FsDir (flat_map (λ '(name, e'),
                         match e' with
                         | FsDir _ =>
                             if keep_dir name
                             then [(name, visible keep_dir keep_file e')]
                             else []
                         | FsFile => if keep_file name then [(name, FsFile)] else []
                         end) entries)
  end.

(** What [os_walk] yields below one entry of a directory, and what
    [visible] leaves of it. *)
Definition walk_child (keep : string → bool) (top : string)
    (ne : string * fs_entry) : list (string * list string) :=
  match ne.2 with
  | FsDir _ => if keep ne.1 then os_walk keep (os_path_join top ne.1) ne.2 else []
  | FsFile => []
  end.

Definition visible_child (keep_dir keep_file : string → bool)
    (ne : string * fs_entry) : list (string * fs_entry) :=
  match ne.2 with
  | FsDir _ =>
      if keep_dir ne.1 then [(ne.1, visible keep_dir keep_file ne.2)] else []
  | FsFile => if keep_file ne.1 then [(ne.1, FsFile)] else []
  end.

(** The directories the scan enters and the files it lists. *)
Definition kept_dir (d : string) : bool := bool_decide (d ∉ DEFAULT_IGNORE_DIRS).

Definition kept_file (env : environment) (f : string) : bool :=
  negb (bool_decide (f ∈ [script_name env; OUTPUT_FILENAME])).

(** The body of the loop of [analyze_directory] over the files of one
    directory. *)
Definition scan_file (env : environment) (root_path current_path : PurePath)
    (st : list string * gmap string string) (filename : string)
    : io (list string * gmap string string) :=
  let '(all_file_paths, text_file_contents) := st in
  if bool_decide (filename ∈ [script_name env; OUTPUT_FILENAME])
  then mret (all_file_paths, text_file_contents)
  else
    let file_path := truediv current_path filename in
    rel ← IO.lift (relative_to file_path root_path);
    let relative_path_str := replace_char sep "/" (fspath rel) in
    let all_file_paths := all_file_paths ++ [relative_path_str] in
    is_text ← is_text_file (open_file env) file_path;
    if is_text : bool then
      IO.try_except
        (content ← read_text env file_path;
         mret (all_file_paths,
               <[relative_path_str := content]> text_file_contents))
        is_Exception
        (λ _, mret (all_file_paths, text_file_contents))
    else mret (all_file_paths, text_file_contents).

(** The body of its loop over the directories. *)
Definition scan_dir (env : environment) (root_path : PurePath)
    (st : list string * gmap string string) (item : string * list string)
    : io (list string * gmap string string) :=
  for_each item.2 (scan_file env root_path (Path item.1)) st.

(** Whatever a computation raises satisfies [E]. *)
Definition io_raises {A} (E : py_exception → Prop) (m : io A) : Prop :=
  ∀ e, m.1 = Raise e → E e.

(** The contents gathered so far are those of listed paths. *)
Definition scan_state_ok (st : list string * gmap string string) : Prop :=
  ∀ k, is_Some (st.2 !! k) → k ∈ st.1.

(** A loop that threads one variable and stops at the first exception. *)
Fixpoint fold_outcome {X A} (f : A → X → outcome A) (xs : list X) (a : A)
    : outcome A :=
  match xs with
  | [] => Return a
  | x :: r => a' ← f a x; fold_outcome f r a'
  end.

(** What [scan_file] does to the list of paths alone. *)
Definition list_file (env : environment) (root_path current_path : PurePath)
    (all_file_paths : list string) (filename : string) : outcome (list string) :=
  if bool_decide (filename ∈ [script_name env; OUTPUT_FILENAME])
  then Return all_file_paths
  else
    rel ← relative_to (truediv current_path filename) root_path;
    Return (all_file_paths ++ [replace_char sep "/" (fspath rel)]).

(** The paths of the kept files, directory by directory, computed from
    the directory tree alone. *)
Definition listed_paths (env : environment) (root_path : PurePath)
    : outcome (list string) :=
  fold_outcome
    (λ acc item, fold_outcome (list_file env root_path (Path item.1)) item.2 acc)
    (os_walk kept_dir (fspath root_path) (disk env)) [].

(** The same run on another content of the working directory, and with
    other answers of the file system. *)
Definition with_disk (env : environment) (d : fs_entry) : environment :=
  MkEnv (cwd env) d (open_file env) (script_name env) (now env)
        (decode_utf8_ignore env) (write_error env) (exception_text env).

Definition with_files (env : environment) (fs : filesystem)
    (decode : list byte → string) : environment :=
  MkEnv (cwd env) (disk env) fs (script_name env) (now env)
        decode (write_error env) (exception_text env).

(** The events of reading a file. *)
Definition read_event (ev : fs_event) : Prop :=
  match ev with
  | EvOpen _ | EvRead _ | EvClose => True
  | EvWrite _ _ | EvShowMessage _ _ _ => False
  end.

(** A computation logs only events satisfying [Q], does not end the
    process, and returns, when it does, a value satisfying [I]. *)
Definition io_post {A} (I : A → Prop) (Q : fs_event → Prop) (m : io A) : Prop :=
  Forall Q m.2 ∧
  match m.1 with
  | Return a => I a
  | Raise _ => True
  | SystemExit _ => False
  end.

(** * Properties of the classifier *)

Section Classifier.
Implicit Types (fs : filesystem) (file_path : PurePath).

(** The equations of [lower]. *)
Lemma lower_kelvin (r : string) :
  lower (kelvin_sign +:+ r) = String "k" (lower r).
Proof. reflexivity. Qed.

Lemma lower_other (c : ascii) (r : string) :
  (∀ r', String c r ≠ kelvin_sign +:+ r') →
  lower (String c r) = String (ascii_lower c) (lower r).
Proof.
  intros Hne. destruct r as [|c1 [|c2 r']]; try reflexivity.
  cbn [lower]. case_bool_decide as Hk; [|reflexivity].
  destruct Hk as (-> & -> & ->). by destruct (Hne r').
Qed.

Lemma ascii_lower_is_ascii (c : ascii) : is_ascii (ascii_lower c) ↔ is_ascii c.
Proof.
  destruct c as [[] [] [] [] [] [] [] []]; vm_compute; tauto.
Qed.

Lemma is_ascii_not_kelvin (c : ascii) (r r' : string) :
  is_ascii c → String c r ≠ kelvin_sign +:+ r'.
Proof. intros Hc [= -> _]. by vm_compute in Hc. Qed.

Lemma kelvin_cases (s : string) :
  (∃ r', s = String "226" (String "132" (String "170" r'))) ∨
  (∀ r', s ≠ kelvin_sign +:+ r').
Proof.
  destruct s as [|c [|c1 [|c2 r]]]; try (right; intros r'; discriminate).
  destruct (decide (c = "226" ∧ c1 = "132" ∧ c2 = "170")%char)
    as [(-> & -> & ->)|Hk].
  - left. by exists r.
  - right. intros r' [= -> -> -> _]. by destruct Hk.
Qed.

(** [lower] yields a string of ASCII exactly on the strings made of
    characters of ASCII and of Kelvin signs, the strings on which it maps
    every character as [str.lower] does: only there can its result be one
    of the listed extensions. *)
Lemma lower_ascii (s : string) :
  Forall is_ascii (chars (lower s)) ↔ ascii_or_kelvin s.
Proof.
  split.
  - remember (String.length s) as n eqn:Hn.
    assert (String.length s ≤ n)%nat as Hle by lia. clear Hn.
    revert s Hle. induction n as [|n IH]; intros [|c r] Hle Hall;
      simpl in Hle; try lia; try apply aok_empty.
    destruct (kelvin_cases (String c r)) as [[r' Hk]|Hk].
    + injection Hk as -> ->. simpl in Hle.
      apply (aok_kelvin r'), IH; [lia|].
      exact (Forall_inv_tail (Hall : Forall is_ascii ("k"%char :: chars (lower r')))).
    + rewrite lower_other in Hall by done.
      apply Forall_cons in Hall as [Hc Hall].
      apply aok_ascii; [by apply ascii_lower_is_ascii|].
      apply IH; [lia|done].
  - induction 1 as [|c r Hc _ IH|r _ IH].
    + constructor.
    + rewrite lower_other by (intros r'; by apply is_ascii_not_kelvin).
      simpl. constructor; [by apply ascii_lower_is_ascii|done].
    + rewrite lower_kelvin. simpl. constructor; [by vm_compute|done].
Qed.

Lemma is_text_file_sniffs fs file_path :
  lower (suffix file_path) ∉ FORCE_TEXT_FILE_EXTENSIONS →
  lower (suffix file_path) ∉ BINARY_FILE_EXTENSIONS →
  is_text_file fs file_path
  = IO.try_except (sniff fs file_path) is_OSError (λ _, mret false).
Proof.
  intros Ht Hb. unfold is_text_file.
  rewrite (bool_decide_false _ Ht), (bool_decide_false _ Hb). reflexivity.
Qed.

Lemma sniff_readable fs file_path content :
  fs (fspath file_path) = Readable content →
  sniff fs file_path
  = (Return (bool_decide (x00 ∉ take 1024 content)),
     [EvOpen (fspath file_path); EvRead (Some 1024%nat); EvClose]).
Proof.
  intros Hfs. unfold sniff, IO.with_open. rewrite Hfs. simpl.
  destruct (decide (x00 ∈ take 1024 content)) as [Hin|Hnin].
  - rewrite (bool_decide_true _ Hin), bool_decide_false by tauto. reflexivity.
  - rewrite (bool_decide_false _ Hnin), bool_decide_true by tauto. reflexivity.
Qed.

Lemma elem_of_take_lookup {A} (x : A) (n : nat) (l : list A) :
  x ∈ take n l ↔ ∃ i : nat, (i < n)%nat ∧ l !! i = Some x.
Proof.
  rewrite list_elem_of_lookup. split.
  - intros [i Hi]. apply lookup_take_Some in Hi as [??]. eauto.
  - intros (i & ? & ?). exists i. apply lookup_take_Some. auto.
Qed.

Lemma rfind_absent (c : ascii) (s : string) :
  c ∉ String.list_ascii_of_string s → rfind c s = -1.
Proof.
  induction s as [|a r IH]; simpl; [done|].
  intros Hnin. apply not_elem_of_cons in Hnin as [Hne Hr].
  rewrite (IH Hr). simpl. rewrite bool_decide_false; congruence.
Qed.
End Classifier.

(** C1. A path whose lowercased extension is in the force-text set is
    classified Text whatever the file system holds at that path, and
    the file is neither opened nor read: the log of file-system calls
    is empty. *)
Theorem is_text_file_force_text (fs : filesystem) (file_path : PurePath) :
  lower (suffix file_path) ∈ FORCE_TEXT_FILE_EXTENSIONS →
  is_text_file fs file_path = (Return true, []).
Proof.
  intros Hin. unfold is_text_file. rewrite (bool_decide_true _ Hin). reflexivity.
Qed.

(** A [.md] file holding NUL bytes is classified Text. *)
Lemma is_text_file_force_text_witness :
  (lower (suffix (Path "docs/README.MD")) ∈ FORCE_TEXT_FILE_EXTENSIONS) ∧
  is_text_file (λ _, Readable [x68; x00; x69; x00]) (Path "docs/README.MD")
  = (Return true, []).
Proof.
  split.
  - apply (bool_decide_unpack _). by vm_compute.
  - apply (is_text_file_force_text (λ _, Readable [x68; x00; x69; x00])
             (Path "docs/README.MD")).
    apply (bool_decide_unpack _). by vm_compute.
Defined.

(** C2, as the code has it: a path with the extension [.svg] is
    classified Binary without being opened, because [.svg] is in the
    force-binary set and not in the force-text set. *)
Theorem is_text_file_svg (fs : filesystem) (file_path : PurePath) :
  lower (suffix file_path) = ".svg" →
  is_text_file fs file_path = (Return false, []).
Proof.
  intros Hext. unfold is_text_file. rewrite Hext. reflexivity.
Qed.

Lemma is_text_file_svg_witness :
  lower (suffix (Path "img/Logo.SVG")) = ".svg" ∧
  is_text_file (λ _, Readable [x3c; x73; x76; x67; x3e]) (Path "img/Logo.SVG")
  = (Return false, []).
Proof.
  split; [reflexivity|].
  apply (is_text_file_svg (λ _, Readable [x3c; x73; x76; x67; x3e])
           (Path "img/Logo.SVG")).
  reflexivity.
Defined.

(** C2 fails as stated: [logo.svg], holding the text [<svg>], is not
    classified Text. *)
Lemma svg_not_text :
  suffix (Path "logo.svg") = ".svg" ∧
  (".svg" ∉ FORCE_TEXT_FILE_EXTENSIONS) ∧
  (".svg" ∈ BINARY_FILE_EXTENSIONS) ∧
  is_text_file (λ _, Readable [x3c; x73; x76; x67; x3e]) (Path "logo.svg")
  = (Return false, []) ∧
  (is_text_file (λ _, Readable [x3c; x73; x76; x67; x3e]) (Path "logo.svg")).1
  ≠ Return true.
Proof.
  split; [reflexivity|]. split_and!.
  - apply (bool_decide_unpack _). by vm_compute.
  - apply (bool_decide_unpack _). by vm_compute.
  - reflexivity.
  - by vm_compute.
Qed.

(** C3. For a readable file whose extension is in neither set, the
    classification is Binary exactly when a NUL byte occurs among the
    first 1024 bytes of the content, and Text otherwise. *)
Theorem is_text_file_unknown_extension
    (fs : filesystem) (file_path : PurePath) (content : list byte) :
  lower (suffix file_path) ∉ FORCE_TEXT_FILE_EXTENSIONS →
  lower (suffix file_path) ∉ BINARY_FILE_EXTENSIONS →
  fs (fspath file_path) = Readable content →
  ((is_text_file fs file_path).1 = Return false
   ↔ ∃ i : nat, (i < 1024)%nat ∧ content !! i = Some x00) ∧
  ((is_text_file fs file_path).1 = Return true
   ↔ ¬ ∃ i : nat, (i < 1024)%nat ∧ content !! i = Some x00).
Proof.
  intros Ht Hb Hfs.
  rewrite (is_text_file_sniffs _ _ Ht Hb), (sniff_readable _ _ _ Hfs).
  rewrite <-elem_of_take_lookup. simpl.
  destruct (decide (x00 ∈ take 1024 content)) as [Hin|Hnin].
  - rewrite bool_decide_false by tauto. split; split; try done.
  - rewrite bool_decide_true by done. split; split; try done.
Qed.

Lemma is_text_file_unknown_extension_witness :
  let fs : filesystem := λ _, Readable [x68; x65; x00; x6f] in
  ((is_text_file fs (Path "data/notes.bin")).1 = Return false
   ↔ ∃ i : nat, (i < 1024)%nat ∧ [x68; x65; x00; x6f] !! i = Some x00) ∧
  ((is_text_file fs (Path "data/notes.bin")).1 = Return true
   ↔ ¬ ∃ i : nat, (i < 1024)%nat ∧ [x68; x65; x00; x6f] !! i = Some x00).
Proof.
  intros fs.
  apply (is_text_file_unknown_extension fs (Path "data/notes.bin")
           [x68; x65; x00; x6f]).
  - apply (bool_decide_unpack (_ ∉ _)). vm_compute. exact I.
  - apply (bool_decide_unpack (_ ∉ _)). vm_compute. exact I.
  - reflexivity.
Defined.

(** C4. When the extension is in neither set and opening the file, or
    reading it, fails with an [OSError] (a permission error, a file that
    is gone), the classification is Binary and nothing is raised. *)
Theorem is_text_file_unreadable
    (fs : filesystem) (file_path : PurePath) (e : py_exception) :
  lower (suffix file_path) ∉ FORCE_TEXT_FILE_EXTENSIONS →
  lower (suffix file_path) ∉ BINARY_FILE_EXTENSIONS →
  is_OSError e = true →
  fs (fspath file_path) = OpenFails e ∨ fs (fspath file_path) = ReadFails e →
  (is_text_file fs file_path).1 = Return false.
Proof.
  intros Ht Hb He Hfs. rewrite (is_text_file_sniffs _ _ Ht Hb).
  unfold sniff, IO.with_open, IO.try_except.
  destruct Hfs as [-> | ->]; simpl; rewrite He; reflexivity.
Qed.

Lemma is_text_file_unreadable_witness :
  (is_text_file (λ _, OpenFails PermissionError) (Path "secret/key")).1
  = Return false.
Proof.
  apply (is_text_file_unreadable (λ _, OpenFails PermissionError)
           (Path "secret/key") PermissionError).
  - apply (bool_decide_unpack (_ ∉ _)). vm_compute. exact I.
  - apply (bool_decide_unpack (_ ∉ _)). vm_compute. exact I.
  - reflexivity.
  - left. reflexivity.
Defined.

(** C10. A file whose name is a dot followed by characters none of which
    is a dot has the empty extension: neither list applies, and the
    classification is the one of the byte sniffing, although [.env] is
    itself listed in the force-text set. *)
Theorem is_text_file_dotfile
    (fs : filesystem) (file_path : PurePath) (rest : string) :
  name file_path = String "." rest →
  "."%char ∉ String.list_ascii_of_string rest →
  suffix file_path = "" ∧
  (lower (suffix file_path) ∉ FORCE_TEXT_FILE_EXTENSIONS) ∧
  (lower (suffix file_path) ∉ BINARY_FILE_EXTENSIONS) ∧
  is_text_file fs file_path
  = IO.try_except (sniff fs file_path) is_OSError (λ _, mret false) ∧
  ".env" ∈ FORCE_TEXT_FILE_EXTENSIONS.
Proof.
  intros Hname Hrest.
  assert (suffix file_path = "") as Hsuf.
  { unfold suffix. rewrite Hname. simpl. rewrite (rfind_absent _ _ Hrest).
    reflexivity. }
  assert (lower (suffix file_path) ∉ FORCE_TEXT_FILE_EXTENSIONS) as Ht.
  { rewrite Hsuf. apply (bool_decide_unpack (_ ∉ _)). vm_compute. exact I. }
  assert (lower (suffix file_path) ∉ BINARY_FILE_EXTENSIONS) as Hb.
  { rewrite Hsuf. apply (bool_decide_unpack (_ ∉ _)). vm_compute. exact I. }
  split; [done|]. split; [done|]. split; [done|]. split.
  - by apply is_text_file_sniffs.
  - apply (bool_decide_unpack (_ ∈ _)). vm_compute. exact I.
Qed.

(** The file [.env] with a NUL byte in it is classified Binary. *)
Lemma is_text_file_dotfile_witness :
  let fs : filesystem := λ _, Readable [x41; x3d; x00] in
  suffix (Path "proj/.env") = "" ∧
  is_text_file fs (Path "proj/.env")
  = (Return false, [EvOpen "proj/.env"; EvRead (Some 1024%nat); EvClose]).
Proof.
  intros fs.
  destruct (is_text_file_dotfile fs (Path "proj/.env") "env")
    as (Hsuf & _ & _ & Heq & _).
  - reflexivity.
  - apply (bool_decide_unpack (_ ∉ _)). vm_compute. exact I.
  - split; [exact Hsuf|]. rewrite Heq. reflexivity.
Defined.


(** * Properties of the tree builder *)

Section Sorting.
#[local] Instance le_fst_total : Total (λ x y : string * value, String.le x.1 y.1).
Proof. intros x y. apply (total String.le). Qed.

Lemma sorted_sorted (l : list string) : StronglySorted String.le (sorted l).
Proof. apply StronglySorted_merge_sort; apply _. Qed.

Lemma sorted_Permutation (l : list string) : sorted l ≡ₚ l.
Proof. apply merge_sort_Permutation. Qed.

Lemma sorted_items_Permutation (d : dict) : sorted_items d ≡ₚ d.
Proof. apply merge_sort_Permutation. Qed.

Lemma sorted_items_sorted (d : dict) : Sorted String.le ((sorted_items d).*1).
Proof.
  apply (Sorted_fmap _ (λ x y : string * value, String.le x.1 y.1)); [done|].
  apply Sorted_merge_sort. apply _.
Qed.

(** Sorting does not depend on the order of the input. *)
Lemma sorted_perm (l1 l2 : list string) : l1 ≡ₚ l2 → sorted l1 = sorted l2.
Proof.
  intros Hp. apply (StronglySorted_unique String.le); try apply sorted_sorted.
  by rewrite !sorted_Permutation.
Qed.
End Sorting.

(** ** Induction on the intermediate mapping *)

Lemma value_ind_nested (P : value → Prop) :
  P PyNone →
  (∀ items, Forall (λ kv, P kv.2) items → P (PyDict items)) →
  ∀ v, P v.
Proof.
  intros Hnone Hdict.
  fix IH 1. intros [|items]; [exact Hnone|].
  apply Hdict. induction items as [|[k v] items IHitems]; constructor.
  - apply IH.
  - exact IHitems.
Qed.

Lemma value_height_elem (d : dict) (k : string) (v : value) :
  (k, v) ∈ d → (value_height v < value_height (PyDict d))%nat.
Proof.
  simpl. induction d as [|[k' v'] d IH]; intros Hin; [by inv Hin|].
  simpl. apply elem_of_cons in Hin as [[= <- <-]|Hin]; [lia|].
  specialize (IH Hin). lia.
Qed.

(** ** The bounded recursion is the recursion of the source *)

Lemma format_tree_rec_S (n : nat) (d : dict) (cur : string) :
  format_tree_rec (S n) d cur
  = format_entry (format_tree_rec n) cur <$> sorted_items d.
Proof. reflexivity. Qed.

Lemma format_tree_rec_fuel (n m : nat) (d : dict) (cur : string) :
  (value_height (PyDict d) ≤ n)%nat → (value_height (PyDict d) ≤ m)%nat →
  format_tree_rec n d cur = format_tree_rec m d cur.
Proof.
  revert m d cur. induction n as [|n IH]; intros m d cur Hn Hm.
  { simpl in Hn. lia. }
  destruct m as [|m]; [simpl in Hm; lia|].
  rewrite !format_tree_rec_S. apply Forall_fmap_ext, Forall_forall.
  intros [k [|sub]] Hin; [done|]. simpl. f_equal.
  rewrite sorted_items_Permutation in Hin.
  apply value_height_elem in Hin. apply IH; lia.
Qed.

(** [format_tree] satisfies the equation by which the source defines it:
    one node per entry of the sorted items, a folder holding the result
    of the recursive call on its sub-mapping. *)
Lemma format_tree_unfold (d : dict) (cur : string) :
  format_tree d cur = format_entry format_tree cur <$> sorted_items d.
Proof.
  unfold format_tree at 1. change (value_height (PyDict d)) with
    (S (foldr (λ kv h, Nat.max (value_height kv.2) h) O d)).
  rewrite format_tree_rec_S. apply Forall_fmap_ext, Forall_forall.
  intros [k [|sub]] Hin; [done|]. simpl. f_equal.
  rewrite sorted_items_Permutation in Hin.
  apply value_height_elem in Hin. simpl in Hin.
  unfold format_tree. apply format_tree_rec_fuel; simpl; lia.
Qed.

(** ** Order independence *)

(** C5. Two input lists that are permutations of one another give the
    same result: the same tree, or the same exception. *)
Theorem build_tree_from_paths_permutation (paths1 paths2 : list string) :
  paths1 ≡ₚ paths2 →
  build_tree_from_paths paths1 = build_tree_from_paths paths2.
Proof.
  intros Hp. unfold build_tree_from_paths, build_dict.
  by rewrite (sorted_perm _ _ Hp).
Qed.

Lemma build_tree_from_paths_permutation_witness :
  build_tree_from_paths ["b.txt"; "a/c.txt"; "a/d/e.py"]
  = build_tree_from_paths ["a/d/e.py"; "b.txt"; "a/c.txt"].
Proof.
  apply (build_tree_from_paths_permutation
           ["b.txt"; "a/c.txt"; "a/d/e.py"] ["a/d/e.py"; "b.txt"; "a/c.txt"]).
  change (["b.txt"; "a/c.txt"] ++ ["a/d/e.py"] ≡ₚ ["a/d/e.py"] ++ ["b.txt"; "a/c.txt"]).
  apply Permutation_app_comm.
Defined.

(** ** Sibling order *)

Lemma node_sorted_children (children : list tree_node) :
  foldr (λ c acc, node_sorted c ∧ acc) True children ↔ Forall node_sorted children.
Proof.
  induction children as [|c children IH]; simpl.
  - split; [constructor|done].
  - rewrite Forall_cons, IH. done.
Qed.

Lemma title_format_entry format_sub cur (entry : string * value) :
  title (format_entry format_sub cur entry) = entry.1.
Proof. by destruct entry as [k [|sub]]. Qed.

Lemma format_tree_rec_sorted (n : nat) (d : dict) (cur : string) :
  tree_sorted (format_tree_rec n d cur).
Proof.
  revert d cur. induction n as [|n IH]; intros d cur.
  { split; constructor. }
  rewrite format_tree_rec_S. split.
  - rewrite <-list_fmap_compose.
    rewrite (list_fmap_ext _ fst (sorted_items d)).
    + apply sorted_items_sorted.
    + intros i x _. apply title_format_entry.
  - apply Forall_fmap, Forall_forall. intros [k [|sub]] _; simpl; [done|].
    destruct (IH sub (key_path_of cur k)) as [Hs Hc].
    split; [done|]. by apply node_sorted_children.
Qed.

(** C6. In a tree that [build_tree_from_paths] returns, the siblings at
    every level are in ascending order of their title. *)
Theorem build_tree_from_paths_sorted (paths : list string) (t : list tree_node) :
  build_tree_from_paths paths = Return t → tree_sorted t.
Proof.
  unfold build_tree_from_paths. destruct (build_dict paths) as [d| |]; simpl; [|done..].
  intros [= <-]. apply format_tree_rec_sorted.
Qed.

Lemma build_tree_from_paths_sorted_witness :
  tree_sorted
    [FolderNode "a" "a"
       [FolderNode "a/b" "b" [FileNode "a/b/x" "x"; FileNode "a/b/y" "y"];
        FileNode "a/c.txt" "c.txt"];
     FileNode "a.txt" "a.txt"].
Proof.
  apply (build_tree_from_paths_sorted ["a/c.txt"; "a.txt"; "a/b/y"; "a/b/x"]).
  reflexivity.
Defined.

(** ** The mapping operations *)

Lemma dict_get_set_eq (d : dict) (k : string) (v : value) :
  dict_get (dict_set d k v) k = Some v.
Proof.
  induction d as [|[k' v'] d IH]; simpl.
  - by rewrite bool_decide_true.
  - destruct (decide (k' = k)) as [->|Hne].
    + rewrite bool_decide_true by done. simpl. by rewrite bool_decide_true.
    + rewrite bool_decide_false by done. simpl. by rewrite bool_decide_false.
Qed.

Lemma dict_get_set_ne (d : dict) (k k' : string) (v : value) :
  k ≠ k' → dict_get (dict_set d k v) k' = dict_get d k'.
Proof.
  intros Hne. induction d as [|[k0 v0] d IH]; simpl.
  - by rewrite bool_decide_false.
  - destruct (decide (k0 = k)) as [->|Hne0].
    + rewrite bool_decide_true by done. simpl. by rewrite !bool_decide_false.
    + rewrite bool_decide_false by done. simpl. by rewrite IH.
Qed.

Lemma blocked_cons (q q' : string) (qs : list string) (node : dict) :
  blocked (q :: q' :: qs) node
  = match dict_get node q with
    | Some PyNone => true
    | Some (PyDict sub) => blocked (q' :: qs) sub
    | None => false
    end.
Proof. reflexivity. Qed.

Lemma insert_parts_last (p : string) (node : dict) :
  insert_parts [p] node = Return (dict_set node p PyNone).
Proof. reflexivity. Qed.

Lemma insert_parts_cons (p p' : string) (ps : list string) (node : dict) :
  insert_parts (p :: p' :: ps) node
  = match dict_get node p with
    | None =>
        sub ← insert_parts (p' :: ps) [];
        Return (dict_set node p (PyDict sub))
    | Some (PyDict sub) =>
        sub' ← insert_parts (p' :: ps) sub;
        Return (dict_set node p (PyDict sub'))
    | Some PyNone =>
        Raise (match ps with [] => TypeError | _ => AttributeError end)
    end.
Proof. reflexivity. Qed.

Lemma insert_parts_blocked (qs : list string) (node : dict) :
  blocked qs node = true →
  ∃ e, insert_parts qs node = Raise e ∧ collision_error e.
Proof.
  revert node. induction qs as [|q rest IH]; intros node; [done|].
  destruct rest as [|q' rest']; [done|].
  rewrite blocked_cons, insert_parts_cons.
  destruct (dict_get node q) as [[|sub]|]; [| |done].
  - intros _. destruct rest'; eexists; (split; [done|]); [by left|by right].
  - intros Hb. destruct (IH sub Hb) as (e & -> & He). by exists e.
Qed.

(** Once blocked, always blocked: no insertion turns [None] back into a
    folder. *)
Lemma blocked_insert_parts (rs qs : list string) (node node' : dict) :
  blocked qs node = true →
  insert_parts rs node = Return node' →
  blocked qs node' = true.
Proof.
  revert qs node node'. induction rs as [|r rest IH]; intros qs node node'; [done|].
  destruct qs as [|q [|q' qs']]; [done..|].
  rewrite !blocked_cons. intros Hb Hins.
  destruct rest as [|r' rest'].
  - rewrite insert_parts_last in Hins. injection Hins as <-.
    destruct (decide (r = q)) as [->|Hne].
    + by rewrite dict_get_set_eq.
    + by rewrite dict_get_set_ne.
  - rewrite insert_parts_cons in Hins.
    destruct (decide (r = q)) as [->|Hne].
    + destruct (dict_get node q) as [[|sub]|] eqn:Hget; [done| |done].
      destruct (insert_parts (r' :: rest') sub) as [sub'| |] eqn:Hsub; [|done..].
      injection Hins as <-. rewrite dict_get_set_eq. by eapply IH.
    + destruct (dict_get node r) as [[|sub]|]; [done| |].
      * destruct (insert_parts (r' :: rest') sub) as [sub'| |]; [|done..].
        injection Hins as <-. by rewrite dict_get_set_ne.
      * destruct (insert_parts (r' :: rest') []) as [sub'| |]; [|done..].
        injection Hins as <-. by rewrite dict_get_set_ne.
Qed.

(** After a path is inserted, every longer path through it is blocked. *)
Lemma insert_parts_blocks (ps ext : list string) (node node' : dict) :
  ext ≠ [] →
  insert_parts ps node = Return node' →
  blocked (ps ++ ext) node' = true.
Proof.
  intros Hext. revert node node'.
  induction ps as [|p rest IH]; intros node node' Hins; [done|].
  destruct rest as [|p' rest'].
  - rewrite insert_parts_last in Hins. injection Hins as <-.
    destruct ext as [|x ext]; [done|].
    change ([p] ++ x :: ext) with (p :: x :: ext).
    by rewrite blocked_cons, dict_get_set_eq.
  - change ((p :: p' :: rest') ++ ext) with (p :: p' :: (rest' ++ ext)).
    rewrite blocked_cons, insert_parts_cons in *.
    change (p' :: (rest' ++ ext)) with ((p' :: rest') ++ ext).
    destruct (dict_get node p) as [[|sub]|]; [done| |].
    + destruct (insert_parts (p' :: rest') sub) as [sub'| |] eqn:Hsub; [|done..].
      injection Hins as <-. rewrite dict_get_set_eq. by eapply IH.
    + destruct (insert_parts (p' :: rest') []) as [sub'| |] eqn:Hsub; [|done..].
      injection Hins as <-. rewrite dict_get_set_eq. by eapply IH.
Qed.

(** ** What a mapping holds *)

Lemma lookup_path_cons (p : string) (rest : list string) (d : dict) :
  lookup_path (p :: rest) (PyDict d) = dict_get d p ≫= lookup_path rest.
Proof. reflexivity. Qed.

Lemma lookup_path_none (ps : list string) :
  lookup_path ps PyNone = if ps is [] then Some PyNone else None.
Proof. by destruct ps. Qed.

(** ** The loop over the sorted paths *)

Lemma build_dict_foldl (paths : list string) :
  build_dict paths = foldl insert_path (Return []) (sorted paths).
Proof. reflexivity. Qed.

(** An insertion returns a mapping or raises one of three exceptions. *)
Lemma insert_parts_outcome (ps : list string) (node : dict) :
  (∃ node', insert_parts ps node = Return node') ∨
  (∃ e, insert_parts ps node = Raise e ∧ insert_error e).
Proof.
  revert node. induction ps as [|p rest IH]; intros node.
  { right. exists IndexError. split; [done|by left]. }
  destruct rest as [|p' rest'].
  { left. eexists. apply insert_parts_last. }
  rewrite insert_parts_cons. destruct (dict_get node p) as [[|sub]|].
  - right. eexists. split; [done|]. destruct rest'; unfold insert_error; auto.
  - destruct (IH sub) as [[sub' ->]|(e & -> & He)]; [left|right]; eauto.
  - destruct (IH []) as [[sub' ->]|(e & -> & He)]; [left|right]; eauto.
Qed.

Lemma foldl_insert_path_raise (e : py_exception) (l : list string) :
  foldl insert_path (Raise e) l = Raise e.
Proof. by induction l. Qed.

Lemma foldl_insert_path_outcome (l : list string) (node : dict) :
  (∃ node', foldl insert_path (Return node) l = Return node') ∨
  (∃ e, foldl insert_path (Return node) l = Raise e ∧ insert_error e).
Proof.
  revert node. induction l as [|x l IH]; intros node; simpl; [left; eauto|].
  destruct (insert_parts_outcome (parts (Path x)) node) as [[node' ->]|(e & -> & He)].
  - apply IH.
  - right. exists e. by rewrite foldl_insert_path_raise.
Qed.

Lemma foldl_insert_path_blocked (qs : list string) (l : list string)
    (node node' : dict) :
  blocked qs node = true →
  foldl insert_path (Return node) l = Return node' →
  blocked qs node' = true.
Proof.
  revert node. induction l as [|x l IH]; intros node Hb; simpl.
  { by intros [= <-]. }
  destruct (insert_parts (parts (Path x)) node) as [node1|e|c] eqn:Hins.
  - apply IH. by eapply blocked_insert_parts.
  - by rewrite foldl_insert_path_raise.
  - clear. induction l; simpl; [done|auto].
Qed.

(** If [p] is inserted before [q] and the segments of [q] extend those of
    [p], the loop raises. *)
Lemma foldl_insert_path_collision (l1 l2 l3 : list string) (p q : string)
    (ext : list string) (node : dict) :
  parts (Path q) = parts (Path p) ++ ext → ext ≠ [] →
  ∃ e, foldl insert_path (Return node) (l1 ++ p :: l2 ++ q :: l3) = Raise e
       ∧ insert_error e.
Proof.
  intros Hq Hext. rewrite foldl_app.
  destruct (foldl_insert_path_outcome l1 node) as [[n1 ->]|(e & -> & He)];
    [|exists e; by rewrite foldl_insert_path_raise].
  simpl.
  destruct (insert_parts_outcome (parts (Path p)) n1) as [[n2 Hp]|(e & -> & He)];
    [|exists e; by rewrite foldl_insert_path_raise].
  rewrite Hp, foldl_app.
  pose proof (insert_parts_blocks _ ext _ _ Hext Hp) as Hb. rewrite <-Hq in Hb.
  destruct (foldl_insert_path_outcome l2 n2) as [[n3 Hl2]|(e & -> & He)];
    [|exists e; by rewrite foldl_insert_path_raise].
  rewrite Hl2. simpl.
  apply (foldl_insert_path_blocked _ _ _ _ Hb) in Hl2.
  destruct (insert_parts_blocked _ _ Hl2) as (e & -> & He).
  exists e. rewrite foldl_insert_path_raise. split; [done|].
  destruct He as [->| ->]; unfold insert_error; auto.
Qed.

(** In a sorted list, the smaller of two distinct members comes first. *)
Lemma sorted_split (paths : list string) (p q : string) :
  p ∈ paths → q ∈ paths → String.le p q → p ≠ q →
  ∃ l1 l2 l3, sorted paths = l1 ++ p :: l2 ++ q :: l3.
Proof.
  intros Hp Hq Hle Hne.
  rewrite <-(sorted_Permutation paths) in Hp, Hq.
  pose proof (sorted_sorted paths) as Hs.
  apply list_elem_of_split in Hp as (l1 & l2 & Heq). rewrite Heq in Hq, Hs |- *.
  apply elem_of_app in Hq as [Hq|Hq].
  - exfalso. apply Hne. apply (anti_symm String.le); [done|].
    apply (StronglySorted_app_1_elem_of String.le l1 (p :: l2)); [done..|by left].
  - apply elem_of_cons in Hq as [->|Hq]; [done|].
    apply list_elem_of_split in Hq as (l2' & l3 & ->). by exists l1, l2', l3.
Qed.

(** Inserting a path after a longer one that runs through it succeeds:
    the folder standing at the shorter path is replaced by the file
    marker, and what was below it is gone. *)
Lemma insert_parts_overwrites (qs ext : list string) (node node1 : dict) :
  qs ≠ [] → ext ≠ [] →
  insert_parts (qs ++ ext) node = Return node1 →
  ∃ node2, insert_parts qs node1 = Return node2 ∧ leaf node2 qs ∧
           lookup_path (qs ++ ext) (PyDict node2) = None.
Proof.
  intros Hqs Hext. revert Hqs node node1.
  induction qs as [|p rest IH]; intros Hqs node node1 Hins; [done|].
  destruct rest as [|p' rest'].
  - destruct ext as [|x ext']; [done|].
    change ([p] ++ x :: ext') with (p :: x :: ext') in *.
    rewrite insert_parts_cons in Hins. rewrite insert_parts_last.
    eexists. split; [done|]. unfold leaf.
    rewrite !lookup_path_cons, !dict_get_set_eq. done.
  - change ((p :: p' :: rest') ++ ext) with (p :: p' :: (rest' ++ ext)) in *.
    rewrite insert_parts_cons in Hins. rewrite insert_parts_cons.
    change (p' :: (rest' ++ ext)) with ((p' :: rest') ++ ext) in *.
    assert (∃ sub0 sub1, insert_parts ((p' :: rest') ++ ext) sub0 = Return sub1 ∧
                         node1 = dict_set node p (PyDict sub1)) as (sub0 & sub1 & Hsub & ->).
    { destruct (dict_get node p) as [[|sub]|]; [done| |].
      - destruct (insert_parts ((p' :: rest') ++ ext) sub) as [sub1| |] eqn:E; [|done..].
        injection Hins as <-. eauto.
      - destruct (insert_parts ((p' :: rest') ++ ext) []) as [sub1| |] eqn:E; [|done..].
        injection Hins as <-. eauto. }
    destruct (IH ltac:(done) _ _ Hsub) as (sub2 & Hins2 & Hleaf & Hgone).
    rewrite dict_get_set_eq, Hins2. eexists. split; [done|].
    unfold leaf. rewrite !lookup_path_cons, !dict_get_set_eq. done.
Qed.

(** ** Colliding paths *)

Lemma proper_prefix_ext (l1 l2 : list string) :
  proper_prefix l1 l2 → ∃ ext, ext ≠ [] ∧ l2 = l1 ++ ext.
Proof.
  intros [[ext ->] Hne]. exists ext. split; [|done].
  intros ->. by rewrite app_nil_r in Hne.
Qed.

(** When the segments of [q] extend those of [p] and [p] sorts first,
    the builder raises. *)
Lemma build_tree_from_paths_raises (paths : list string) (p q : string) :
  p ∈ paths → q ∈ paths →
  proper_prefix (parts (Path p)) (parts (Path q)) →
  String.le p q →
  ∃ e, build_tree_from_paths paths = Raise e ∧ insert_error e.
Proof.
  intros Hp Hq Hpre Hle.
  assert (p ≠ q) as Hne by (intros ->; by destruct Hpre).
  apply proper_prefix_ext in Hpre as (ext & Hext & Hparts).
  destruct (sorted_split paths p q Hp Hq Hle Hne) as (l1 & l2 & l3 & Hs).
  destruct (foldl_insert_path_collision l1 l2 l3 p q ext [] Hparts Hext)
    as (e & He & Hkind).
  exists e. split; [|done].
  unfold build_tree_from_paths. by rewrite build_dict_foldl, Hs, He.
Qed.

(** C8 fails as stated: with the file [a] and the path [a/b] through it,
    the builder raises. *)
Lemma build_tree_from_paths_collision_raises :
  sorted ["a/b"; "a"] = ["a"; "a/b"] ∧
  build_tree_from_paths ["a/b"; "a"] = Raise TypeError ∧
  build_tree_from_paths ["a"; "x/y"; "a/b/c"] = Raise AttributeError.
Proof. by vm_compute. Qed.

(** C8, as the code has it. When the segments of one input path extend
    the segments of another one that sorts before it, the builder raises
    and produces no tree: going down the longer path it reaches the file
    marker of the shorter one. The folder is silently overwritten only
    in the other order: after the longer path, the insertion of the
    shorter one succeeds, leaves the file marker where the folder was,
    and the longer path is no longer in the mapping. *)
Theorem build_tree_from_paths_collision :
  (∀ (paths : list string) (p q : string),
     p ∈ paths → q ∈ paths →
     proper_prefix (parts (Path p)) (parts (Path q)) →
     String.le p q →
     ∃ e, build_tree_from_paths paths = Raise e ∧ insert_error e) ∧
  (∀ (qs ext : list string) (node node1 : dict),
     qs ≠ [] → ext ≠ [] →
     insert_parts (qs ++ ext) node = Return node1 →
     ∃ node2, insert_parts qs node1 = Return node2 ∧ leaf node2 qs ∧
              lookup_path (qs ++ ext) (PyDict node2) = None).
Proof.
  split; [apply build_tree_from_paths_raises|apply insert_parts_overwrites].
Qed.

Lemma build_tree_from_paths_collision_witness :
  (∃ e, build_tree_from_paths ["src/main.py/x"; "src/main.py"] = Raise e
        ∧ insert_error e) ∧
  (∃ node2, insert_parts ["a"] [("a", PyDict [("b", PyNone)])] = Return node2 ∧
            leaf node2 ["a"] ∧
            lookup_path (["a"] ++ ["b"]) (PyDict node2) = None) ∧
  build_tree_from_paths ["./a/b"; "a"] = Return [FileNode "a" "a"].
Proof.
  split_and!; [| |reflexivity].
  - apply (proj1 build_tree_from_paths_collision
             ["src/main.py/x"; "src/main.py"] "src/main.py" "src/main.py/x").
    + apply (bool_decide_unpack _). by vm_compute.
    + apply (bool_decide_unpack _). by vm_compute.
    + apply (bool_decide_unpack _). by vm_compute.
    + apply (bool_decide_unpack _). by vm_compute.
  - apply (proj2 build_tree_from_paths_collision ["a"] ["b"] []); by vm_compute.
Defined.

(** ** Paths written in normal form *)

Section Strings.
Implicit Types (s r : string) (c : ascii).

Lemma split_on_nonempty c s : split_on c s ≠ [].
Proof.
  destruct s as [|a r]; simpl; [done|].
  case_bool_decide; [done|]. by destruct (split_on c r).
Qed.

Lemma split_on_no_sep c s : Forall (λ w, c ∉ chars w) (split_on c s).
Proof.
  induction s as [|a r IH]; simpl.
  - constructor; [|constructor]. simpl. by intros ?%elem_of_nil.
  - case_bool_decide as Hc.
    + constructor; [|done]. simpl. by intros ?%elem_of_nil.
    + destruct (split_on c r) as [|w ws].
      * constructor; [|constructor]. simpl.
        intros [?|?%elem_of_nil]%elem_of_cons; congruence.
      * inv IH. constructor; [|done]. simpl.
        intros [?|?]%elem_of_cons; congruence.
Qed.

Lemma concat_cons_cons (x y : string) (l : list string) :
  String.concat "/" (x :: y :: l) = x +:+ "/" +:+ String.concat "/" (y :: l).
Proof. reflexivity. Qed.

Lemma concat_String a (w : string) (ws : list string) :
  String.concat "/" (String a w :: ws) = String a (String.concat "/" (w :: ws)).
Proof. by destruct ws. Qed.

(** Joining what was split gives the string back. *)
Lemma concat_split_on s : String.concat "/" (split_on sep s) = s.
Proof.
  induction s as [|a r IH]; [done|]. simpl. case_bool_decide as Ha.
  - pose proof (split_on_nonempty sep r) as Hne.
    destruct (split_on sep r) as [|w ws]; [done|].
    rewrite concat_cons_cons, IH, Ha. reflexivity.
  - pose proof (split_on_nonempty sep r) as Hne.
    destruct (split_on sep r) as [|w ws]; [done|].
    by rewrite concat_String, IH.
Qed.

Lemma splitroot_relative a r : a ≠ sep → splitroot (String a r) = ("", String a r).
Proof.
  intros Ha. destruct a as [[] [] [] [] [] [] [] []]; try reflexivity.
  by destruct Ha.
Qed.

Lemma filter_all {A} (P : A → Prop) `{∀ x, Decision (P x)} (l : list A) :
  Forall P l → filter P l = l.
Proof.
  induction 1 as [|x l Hx _ IH]; [done|].
  rewrite filter_cons, decide_True by done. by rewrite IH.
Qed.

(** The segments of a path in normal form are its "/"-separated
    components. *)
Lemma parts_relative_path (p : string) :
  relative_path p → parts (Path p) = split_on sep p.
Proof.
  intros Hrel. unfold Path.
  assert (splitroot p = ("", p)) as ->.
  { destruct p as [|a r]; [done|]. apply splitroot_relative. intros ->.
    unfold relative_path in Hrel. simpl in Hrel.
    apply Forall_cons_1 in Hrel as [[Hne _] _]. by apply Hne. }
  unfold parts. simpl. apply filter_all.
  eapply Forall_impl; [exact Hrel|]. intros w (? & ? & _). by split.
Qed.

Lemma replace_char_absent a b s : a ∉ chars s → replace_char a b s = s.
Proof.
  induction s as [|c r IH]; simpl; [done|].
  intros [Hne Hr]%not_elem_of_cons. rewrite bool_decide_false by congruence.
  by rewrite IH.
Qed.

Lemma append_assoc s r t : s +:+ r +:+ t = (s +:+ r) +:+ t.
Proof.
  induction s as [|c s IH]; [done|].
  change (String c s +:+ r +:+ t) with (String c (s +:+ r +:+ t)).
  by rewrite IH.
Qed.

Lemma chars_app s r : chars (s +:+ r) = chars s ++ chars r.
Proof. induction s as [|c s IH]; simpl; [done|]. by rewrite <-IH. Qed.

Lemma ends_with_app c s r : r ≠ "" → ends_with c (s +:+ r) = ends_with c r.
Proof.
  intros Hr. induction s as [|a s IH]; [done|].
  change (String a s +:+ r) with (String a (s +:+ r)). simpl.
  destruct (s +:+ r) eqn:E; [|done].
  destruct s; [|done]. simpl in E. by subst.
Qed.

Lemma ends_with_absent c s : c ∉ chars s → ends_with c s = false.
Proof.
  induction s as [|a r IH]; simpl; [done|].
  intros [Hne Hr]%not_elem_of_cons.
  destruct r; [by rewrite bool_decide_false|]. by apply IH.
Qed.

Lemma starts_with_absent c s : c ∉ chars s → starts_with c s = false.
Proof.
  destruct s as [|a r]; simpl; [done|].
  intros [Hne Hr]%not_elem_of_cons. by rewrite bool_decide_false.
Qed.
End Strings.

Section Keys.
Implicit Types (cur name : string) (segs : list string).

Lemma key_path_of_root name : "\"%char ∉ chars name → key_path_of "" name = name.
Proof. intros Hn. unfold key_path_of. simpl. by apply replace_char_absent. Qed.

Lemma key_path_of_below cur name :
  plain_prefix cur → plain_segment name →
  key_path_of cur name = cur +:+ "/" +:+ name.
Proof.
  intros (Hne & Hend & Hbs) (Hn & Hsep & Hnbs). unfold key_path_of, os_path_join.
  rewrite (bool_decide_true (cur ≠ "")) by done.
  rewrite (starts_with_absent _ _ Hsep), (bool_decide_false (cur = "")) by done.
  rewrite Hend. simpl. apply replace_char_absent.
  rewrite !chars_app, !not_elem_of_app. split_and!; [done| |done].
  simpl. intros [?|?%elem_of_nil]%elem_of_cons; [done|done].
Qed.

Lemma plain_prefix_below cur name :
  plain_prefix cur → plain_segment name → plain_prefix (cur +:+ "/" +:+ name).
Proof.
  intros (Hne & Hend & Hbs) (Hn & Hsep & Hnbs). split_and!.
  - by destruct cur.
  - rewrite ends_with_app by done.
    rewrite (ends_with_app sep "/" name) by done. by apply ends_with_absent.
  - rewrite !chars_app, !not_elem_of_app. split_and!; [done| |done].
    simpl. intros [?|?%elem_of_nil]%elem_of_cons; [done|done].
Qed.

Lemma key_of_below cur segs :
  plain_prefix cur → Forall plain_segment segs → segs ≠ [] →
  key_of cur segs = cur +:+ "/" +:+ String.concat "/" segs.
Proof.
  intros Hcur Hsegs. revert cur Hcur.
  induction Hsegs as [|s segs Hs Hsegs IH]; intros cur Hcur Hne; [done|].
  unfold key_of. simpl. rewrite key_path_of_below by done.
  destruct segs as [|s' segs]; [done|].
  fold (key_of (cur +:+ "/" +:+ s) (s' :: segs)).
  rewrite IH by (done || by apply plain_prefix_below).
  by rewrite <-!append_assoc.
Qed.

(** A path in normal form is the key of its own segments. *)
Lemma key_of_relative_path (p : string) :
  relative_path p → key_of "" (split_on sep p) = p.
Proof.
  intros Hrel. rewrite <-(concat_split_on p) at 2.
  pose proof (split_on_no_sep sep p) as Hsep.
  assert (Forall plain_segment (split_on sep p)) as Hplain.
  { unfold relative_path in Hrel. rewrite Forall_forall in Hrel, Hsep |- *.
    intros s Hs. destruct (Hrel s Hs) as (? & ? & ?). split_and!; auto. }
  destruct (split_on sep p) as [|s segs]; [done|].
  inv Hplain. unfold key_of. simpl.
  match goal with H : plain_segment s |- _ => destruct H as (Hn & Hs & Hb) end.
  rewrite key_path_of_root by done.
  destruct segs as [|s' segs]; [done|].
  fold (key_of s (s' :: segs)). rewrite key_of_below; [done| |done..].
  split_and!; [done| |done]. by apply ends_with_absent.
Qed.
End Keys.

(** ** Paths in normal form sort before the paths through them *)

Lemma String_le_append (s r : string) : String.le s (s +:+ r).
Proof.
  unfold String.le, String.leb. induction s as [|c s IH].
  - by destruct r.
  - change (String c s +:+ r) with (String c (s +:+ r)). simpl.
    unfold Ascii.compare. by rewrite N.compare_refl.
Qed.

Lemma concat_app (l1 l2 : list string) :
  l1 ≠ [] → l2 ≠ [] →
  String.concat "/" (l1 ++ l2)
  = String.concat "/" l1 +:+ "/" +:+ String.concat "/" l2.
Proof.
  intros Hl1 Hl2. induction l1 as [|x l1 IH]; [done|].
  destruct l1 as [|y l1].
  - destruct l2; [done|]. apply concat_cons_cons.
  - change ((x :: y :: l1) ++ l2) with (x :: y :: (l1 ++ l2)).
    rewrite !concat_cons_cons.
    change (y :: (l1 ++ l2)) with ((y :: l1) ++ l2). rewrite IH by done.
    by rewrite <-!append_assoc.
Qed.

Lemma relative_path_prefix_le (p q : string) :
  relative_path p → relative_path q →
  proper_prefix (parts (Path p)) (parts (Path q)) →
  String.le p q.
Proof.
  intros Hp Hq Hpre. rewrite !parts_relative_path in Hpre by done.
  apply proper_prefix_ext in Hpre as (ext & Hext & Heq).
  rewrite <-(concat_split_on p), <-(concat_split_on q), Heq.
  rewrite concat_app by (done || apply split_on_nonempty).
  apply String_le_append.
Qed.

(** Among paths in normal form, a path that runs through another one
    always makes the builder raise. *)
Lemma build_tree_from_paths_raises_normal_form (paths : list string) (p q : string) :
  p ∈ paths → q ∈ paths →
  relative_path p → relative_path q →
  proper_prefix (parts (Path p)) (parts (Path q)) →
  ∃ e, build_tree_from_paths paths = Raise e ∧ insert_error e.
Proof.
  intros Hp Hq Hrp Hrq Hpre.
  apply (build_tree_from_paths_raises paths p q); auto using relative_path_prefix_le.
Qed.

(** ** The files recorded in a mapping *)

Section Mapping.
Implicit Types (d : dict) (k : string) (v : value) (ps : list string).

Lemma keys_distinct_dict d :
  keys_distinct (PyDict d) ↔ NoDup d.*1 ∧ Forall (λ kv, keys_distinct kv.2) d.
Proof.
  simpl. apply and_iff_compat_l.
  induction d as [|kv d IH]; simpl.
  - split; [constructor|done].
  - by rewrite Forall_cons, IH.
Qed.

Lemma dict_get_Some d k v : dict_get d k = Some v → (k, v) ∈ d.
Proof.
  induction d as [|[k' v'] d IH]; simpl; [done|].
  case_bool_decide as Hk.
  - intros [= ->]. subst. by left.
  - intros ?. right. auto.
Qed.

Lemma dict_get_elem d k v : NoDup d.*1 → (k, v) ∈ d → dict_get d k = Some v.
Proof.
  induction d as [|[k' v'] d IH]; simpl; [by intros _ ?%elem_of_nil|].
  intros [Hk Hd]%NoDup_cons [[= <- <-]|Hin]%elem_of_cons.
  - by rewrite bool_decide_true.
  - rewrite bool_decide_false; [by apply IH|].
    intros ->. apply Hk. by apply (list_elem_of_fmap_2 fst _ (k, v)).
Qed.

Lemma dict_set_keys d k v :
  (dict_set d k v).*1 = if bool_decide (k ∈ d.*1) then d.*1 else d.*1 ++ [k].
Proof.
  induction d as [|[k' v'] d IH]; [done|]. csimpl.
  destruct (decide (k' = k)) as [->|Hne].
  - rewrite bool_decide_true by done. csimpl.
    by rewrite bool_decide_true by (by left).
  - rewrite bool_decide_false by done. csimpl. rewrite IH.
    destruct (decide (k ∈ d.*1)) as [Hin|Hnin].
    + rewrite (bool_decide_true (k ∈ d.*1)) by done.
      by rewrite (bool_decide_true (k ∈ k' :: d.*1)) by (by right).
    + rewrite (bool_decide_false (k ∈ d.*1)) by done.
      rewrite (bool_decide_false (k ∈ k' :: d.*1)); [done|].
      by intros [?|?]%elem_of_cons.
Qed.

Lemma dict_set_keys_NoDup d k v : NoDup d.*1 → NoDup (dict_set d k v).*1.
Proof.
  intros Hd. rewrite dict_set_keys. case_bool_decide as Hk; [done|].
  apply NoDup_app. split_and!; [done| |apply NoDup_singleton].
  intros x Hx ->%list_elem_of_singleton. done.
Qed.

Lemma dict_set_elem d k v k' v' :
  (k', v') ∈ dict_set d k v → (k', v') = (k, v) ∨ (k', v') ∈ d.
Proof.
  induction d as [|[k0 v0] d IH]; simpl.
  - intros ?%list_elem_of_singleton. by left.
  - case_bool_decide.
    + intros [?|?]%elem_of_cons; [by left|right; by right].
    + intros [[= -> ->]|Hin]%elem_of_cons; [right; by left|].
      destruct (IH Hin); [by left|right; by right].
Qed.

Lemma dict_set_keys_distinct d k v :
  keys_distinct (PyDict d) → keys_distinct v →
  keys_distinct (PyDict (dict_set d k v)).
Proof.
  rewrite !keys_distinct_dict. intros [Hnd Hall] Hv. split.
  - by apply dict_set_keys_NoDup.
  - rewrite Forall_forall in Hall |- *. intros [k' v'] Hin.
    apply dict_set_elem in Hin as [[= -> ->]|Hin]; [done|]. by apply Hall.
Qed.

Lemma keys_distinct_get d k v :
  keys_distinct (PyDict d) → dict_get d k = Some v → keys_distinct v.
Proof.
  rewrite keys_distinct_dict. intros [_ Hall] Hget%dict_get_Some.
  rewrite Forall_forall in Hall. apply (Hall _ Hget).
Qed.

(** An insertion preserves the distinctness of the keys. *)
Lemma insert_parts_keys_distinct ps d d' :
  keys_distinct (PyDict d) → insert_parts ps d = Return d' →
  keys_distinct (PyDict d').
Proof.
  revert d d'. induction ps as [|p rest IH]; intros d d' Hd; [done|].
  destruct rest as [|p' rest'].
  - rewrite insert_parts_last. intros [= <-]. by apply dict_set_keys_distinct.
  - rewrite insert_parts_cons.
    destruct (dict_get d p) as [[|sub]|] eqn:Hget; [done| |].
    + destruct (insert_parts (p' :: rest') sub) as [sub'| |] eqn:Hsub; [|done..].
      intros [= <-]. apply dict_set_keys_distinct; [done|].
      eapply IH; [|done]. by eapply keys_distinct_get.
    + destruct (insert_parts (p' :: rest') []) as [sub'| |] eqn:Hsub; [|done..].
      intros [= <-]. apply dict_set_keys_distinct; [done|].
      eapply IH; [|done]. split; [constructor|done].
Qed.

(** With distinct keys, the listed leaves are the paths that lead to a
    file marker, each listed once. *)
Lemma elem_of_leaves_value v ps :
  keys_distinct v → ps ∈ leaves_value v ↔ lookup_path ps v = Some PyNone.
Proof.
  revert ps. induction v as [|items IH] using value_ind_nested; intros ps Hv.
  { simpl. rewrite list_elem_of_singleton, lookup_path_none.
    destruct ps; naive_solver. }
  apply keys_distinct_dict in Hv as [Hnd Hall].
  rewrite Forall_forall in IH, Hall.
  change (leaves_value (PyDict items))
    with (items ≫= λ kv, (kv.1 ::.) <$> leaves_value kv.2).
  rewrite list_elem_of_bind. split.
  - intros ([k v] & Hin & Hkv). simpl in Hin.
    apply list_elem_of_fmap in Hin as (ps' & -> & Hps').
    rewrite lookup_path_cons, (dict_get_elem _ _ _ Hnd Hkv). simpl.
    apply (IH _ Hkv); [|done]. apply (Hall _ Hkv).
  - destruct ps as [|p ps']; [done|]. rewrite lookup_path_cons.
    destruct (dict_get items p) as [v|] eqn:Hget; [|done]. simpl.
    intros Hlook. apply dict_get_Some in Hget. exists (p, v). split; [|done].
    simpl. apply list_elem_of_fmap_2. apply (IH _ Hget); [|done].
    apply (Hall _ Hget).
Qed.

Lemma leaves_value_NoDup v : keys_distinct v → NoDup (leaves_value v).
Proof.
  induction v as [|items IH] using value_ind_nested; intros Hv.
  { apply NoDup_singleton. }
  apply keys_distinct_dict in Hv as [Hnd Hall].
  rewrite Forall_forall in IH, Hall.
  change (leaves_value (PyDict items))
    with (items ≫= λ kv, (kv.1 ::.) <$> leaves_value kv.2).
  apply NoDup_bind.
  - intros [k1 v1] [k2 v2] ps Hin1 Hin2 Hps1 Hps2. simpl in *.
    apply list_elem_of_fmap in Hps1 as (ps1 & -> & _).
    apply list_elem_of_fmap in Hps2 as (ps2 & [= -> _] & _).
    f_equal. apply (dict_get_elem _ _ _ Hnd) in Hin1, Hin2. congruence.
  - intros [k v] Hin. simpl. apply (NoDup_fmap_2 _). apply (IH _ Hin), (Hall _ Hin).
  - by apply NoDup_fmap_1 in Hnd.
Qed.

Lemma elem_of_leaves d ps : keys_distinct (PyDict d) → ps ∈ leaves d ↔ leaf d ps.
Proof. apply elem_of_leaves_value. Qed.
End Mapping.

(** Every mapping the builder makes has distinct keys, so that sorting
    the items of a mapping never has to compare two values. *)
Lemma build_dict_keys_distinct (paths : list string) (d : dict) :
  build_dict paths = Return d → keys_distinct (PyDict d).
Proof.
  rewrite build_dict_foldl.
  assert (keys_distinct (PyDict [])) as Hd by (split; [constructor|done]).
  revert Hd. generalize (@nil (string * value)) as d0.
  induction (sorted paths) as [|x l IH]; intros d0 Hd0; simpl.
  { by intros [= <-]. }
  destruct (insert_parts (parts (Path x)) d0) as [d1|e|c] eqn:Hins.
  - apply IH. by eapply insert_parts_keys_distinct.
  - by rewrite foldl_insert_path_raise.
  - clear. induction l; simpl; [done|auto].
Qed.

(** ** Insertion without collision *)

Section Insertion.
Implicit Types (d : dict) (k : string) (v : value) (ps l : list string).

Lemma proper_prefix_app l1 l2 :
  proper_prefix l1 l2 ↔ ∃ ext, ext ≠ [] ∧ l2 = l1 ++ ext.
Proof.
  split.
  - intros [[ext ->] Hne]. exists ext. split; [|done].
    intros ->. by rewrite app_nil_r in Hne.
  - intros (ext & Hext & ->). split; [by exists ext|].
    intros Heq. apply Hext. apply (inj (app l1)). by rewrite <-Heq, app_nil_r.
Qed.

Lemma proper_prefix_cons k l1 l2 :
  proper_prefix (k :: l1) (k :: l2) ↔ proper_prefix l1 l2.
Proof.
  rewrite !proper_prefix_app. split; intros (ext & Hext & Heq); exists ext.
  - split; [done|]. by simplify_eq/=.
  - split; [done|]. by rewrite Heq.
Qed.

Lemma proper_prefix_singleton k l : l ≠ [] → proper_prefix [k] (k :: l).
Proof. intros Hl. apply proper_prefix_app. by exists l. Qed.

Lemma leaf_nil d : ¬ leaf d [].
Proof. by intros [=]. Qed.

Lemma leaf_empty l : ¬ leaf [] l.
Proof. by destruct l. Qed.

Lemma leaf_cons d k l :
  leaf d (k :: l) ↔ ∃ v, dict_get d k = Some v ∧ lookup_path l v = Some PyNone.
Proof.
  unfold leaf. rewrite lookup_path_cons.
  destruct (dict_get d k) as [v|]; simpl.
  - split; [by exists v|by intros (? & [= <-] & ?)].
  - split; [done|by intros (? & [=] & ?)].
Qed.

Lemma leaf_dict_set_eq d k v l :
  leaf (dict_set d k v) (k :: l) ↔ lookup_path l v = Some PyNone.
Proof. unfold leaf. by rewrite lookup_path_cons, dict_get_set_eq. Qed.

Lemma leaf_dict_set_ne d k k' v l :
  k ≠ k' → leaf (dict_set d k v) (k' :: l) ↔ leaf d (k' :: l).
Proof. intros Hne. unfold leaf. by rewrite !lookup_path_cons, dict_get_set_ne. Qed.

(** When no recorded file lies on the way of [ps], nor [ps] on the way
    of one, the insertion returns, and records [ps] and nothing else. *)
Lemma insert_parts_spec ps d :
  ps ≠ [] →
  (∀ l, leaf d l → ¬ proper_prefix l ps ∧ ¬ proper_prefix ps l) →
  ∃ d', insert_parts ps d = Return d' ∧ ∀ l, leaf d' l ↔ l = ps ∨ leaf d l.
Proof.
  intros Hps. revert Hps d.
  induction ps as [|p rest IH]; intros Hne d Hfree; [done|]. clear Hne.
  destruct rest as [|p' rest'].
  - rewrite insert_parts_last. eexists. split; [done|].
    intros [|k l]. { split; [by intros ?%leaf_nil|by intros [?|?%leaf_nil]]. }
    destruct (decide (p = k)) as [<-|Hne].
    + rewrite leaf_dict_set_eq, lookup_path_none. split.
      * destruct l; [by left|done].
      * intros [[= ->]|Hl]; [done|]. destruct l as [|k' l']; [done|].
        destruct (Hfree _ Hl) as [_ []]. by apply proper_prefix_singleton.
    + rewrite leaf_dict_set_ne by done. split; [by right|].
      by intros [[= ? ?]|?].
  - rewrite insert_parts_cons.
    assert (∃ sub, (dict_get d p = Some (PyDict sub) ∨
                    dict_get d p = None ∧ sub = []) ∧
                   ∀ l, leaf d (p :: l) ↔ leaf sub l) as (sub & Hget & Hsub).
    { destruct (dict_get d p) as [[|sub]|] eqn:Hget.
      - destruct (Hfree [p]) as [[] _].
        + apply leaf_cons. by exists PyNone.
        + by apply proper_prefix_singleton.
      - exists sub. split; [by left|]. intros l. rewrite leaf_cons, Hget. split.
        + by intros (v & [= <-] & ?).
        + intros ?. by exists (PyDict sub).
      - exists []. split; [by right|]. intros l. rewrite leaf_cons, Hget. split.
        + by intros (v & [=] & ?).
        + by intros ?%leaf_empty. }
    destruct (IH ltac:(done) sub) as (sub' & Hins & Hspec).
    { intros l Hl. apply Hsub, Hfree in Hl. by rewrite !proper_prefix_cons in Hl. }
    exists (dict_set d p (PyDict sub')). split.
    { destruct Hget as [->|[-> ->]]; by rewrite Hins. }
    intros [|k l]. { split; [by intros ?%leaf_nil|by intros [?|?%leaf_nil]]. }
    destruct (decide (p = k)) as [<-|Hne].
    + rewrite leaf_dict_set_eq. fold (leaf sub' l). rewrite Hspec, Hsub.
      split; (intros [?|?]; [left|right]); by simplify_eq.
    + rewrite leaf_dict_set_ne by done. split; [by right|].
      by intros [[= ? ?]|?].
Qed.
End Insertion.

(** ** From the mapping to the tree *)

Section Flatten.
Lemma fmap_bind_list {A B C} (f : B → C) (g : A → list B) (l : list A) :
  f <$> (l ≫= g) = l ≫= λ x, f <$> g x.
Proof.
  induction l as [|x l IH]; [done|]. by rewrite !bind_cons, fmap_app, IH.
Qed.

Lemma bind_Permutation_pointwise {A B} (f g : A → list B) (l : list A) :
  Forall (λ x, f x ≡ₚ g x) l → l ≫= f ≡ₚ l ≫= g.
Proof.
  induction 1 as [|x l Hx _ IH]; [done|]. rewrite !bind_cons. by f_equiv.
Qed.

Lemma key_of_cons (cur k : string) (ps : list string) :
  key_of cur (k :: ps) = key_of (key_path_of cur k) ps.
Proof. reflexivity. Qed.
End Flatten.

(** ** The order of the file keys *)

Section Order.
Lemma StronglySorted_bind {A B} (R0 : relation A) (R : relation B)
    (g : A → list B) (l : list A) :
  StronglySorted R0 l →
  (∀ x, x ∈ l → StronglySorted R (g x)) →
  (∀ x y a b, x ∈ l → y ∈ l → R0 x y → a ∈ g x → b ∈ g y → R a b) →
  StronglySorted R (l ≫= g).
Proof.
  induction 1 as [|x l Hl IH Hx]; intros Hin Hcross; [constructor|].
  rewrite bind_cons. apply StronglySorted_app; split_and!.
  - intros a b Ha (y & Hb & Hy)%list_elem_of_bind.
    rewrite Forall_forall in Hx.
    apply (Hcross x y); [by left|by right|by apply Hx|done..].
  - apply Hin. by left.
  - apply IH.
    + intros y Hy. apply Hin. by right.
    + intros y z a b Hy Hz. apply Hcross; by right.
Qed.

Lemma StronglySorted_fmap_elem {A B} (R1 : relation A) (R2 : relation B)
    (f : A → B) (l : list A) :
  (∀ x y, x ∈ l → y ∈ l → R1 x y → R2 (f x) (f y)) →
  StronglySorted R1 l → StronglySorted R2 (f <$> l).
Proof.
  intros Hf. induction 1 as [|x l Hl IH Hx]; csimpl; constructor.
  - apply IH. intros y z Hy Hz. apply Hf; by right.
  - rewrite Forall_fmap, Forall_forall in *. intros y Hy. simpl.
    apply Hf; [by left|by right|by apply Hx].
Qed.

(** The sorted items of a mapping with distinct keys are in strictly
    ascending order of key. *)
Lemma sorted_items_strict (d : dict) :
  NoDup d.*1 → StronglySorted (λ x y, str_lt x.1 y.1) (sorted_items d).
Proof.
  intros Hnd. rewrite <-(sorted_items_Permutation d) in Hnd.
  pose proof (sorted_items_sorted d) as Hs.
  apply (Sorted_StronglySorted String.le) in Hs.
  induction (sorted_items d) as [|x l IH]; [constructor|].
  rewrite fmap_cons in Hs, Hnd.
  apply StronglySorted_inv in Hs as [Hs Hx].
  apply NoDup_cons in Hnd as [Hnx Hnd].
  constructor; [by apply IH|].
  rewrite Forall_fmap in Hx. rewrite Forall_forall in Hx |- *.
  intros y Hy. split; [by apply Hx|].
  intros Heq. apply Hnx. rewrite Heq. by apply list_elem_of_fmap_2.
Qed.

Lemma leaf_titles_format_entry (format_sub : dict → string → list tree_node)
    (cur : string) (k : string) (v : value) :
  leaf_titles_node (format_entry format_sub cur (k, v))
  = (k ::.) <$> match v with
                | PyNone => [[]]
                | PyDict sub => leaf_titles (format_sub sub (key_path_of cur k))
                end.
Proof. by destruct v. Qed.

(** The file keys are the keys of the title paths, in the same order. *)
Lemma file_keys_leaf_titles_value (v : value) (cur : string) :
  match v with
  | PyNone => True
  | PyDict d =>
      file_keys (format_tree d cur)
      = key_of cur <$> leaf_titles (format_tree d cur)
  end.
Proof.
  revert cur. induction v as [|items IH] using value_ind_nested; intros cur; [done|].
  rewrite format_tree_unfold. unfold file_keys, leaf_titles.
  rewrite !list_fmap_bind, fmap_bind_list. apply Forall_bind_ext.
  rewrite sorted_items_Permutation.
  eapply Forall_impl; [exact IH|]. intros [k [|sub]] Hsub; simpl; [done|].
  rewrite <-list_fmap_compose. apply (Hsub (key_path_of cur k)).
Qed.

(** The title paths are the recorded files, up to the order. *)
Lemma leaf_titles_format_value (v : value) (cur : string) :
  match v with
  | PyNone => True
  | PyDict d => leaf_titles (format_tree d cur) ≡ₚ leaves d
  end.
Proof.
  revert cur. induction v as [|items IH] using value_ind_nested; intros cur; [done|].
  rewrite format_tree_unfold. unfold leaf_titles, leaves.
  rewrite list_fmap_bind, sorted_items_Permutation.
  change (leaves_value (PyDict items))
    with (items ≫= λ kv, (kv.1 ::.) <$> leaves_value kv.2).
  apply bind_Permutation_pointwise.
  eapply Forall_impl; [exact IH|]. intros [k [|sub]] Hsub; simpl; [done|].
  f_equiv. apply (Hsub (key_path_of cur k)).
Qed.

(** The title paths come in strictly ascending order, segment by
    segment. *)
Lemma leaf_titles_sorted_value (v : value) (cur : string) :
  keys_distinct v →
  match v with
  | PyNone => True
  | PyDict d => StronglySorted segments_lt (leaf_titles (format_tree d cur))
  end.
Proof.
  revert cur. induction v as [|items IH] using value_ind_nested; intros cur Hv; [done|].
  apply keys_distinct_dict in Hv as [Hnd Hall].
  rewrite format_tree_unfold. unfold leaf_titles. rewrite list_fmap_bind.
  apply (StronglySorted_bind (λ x y : string * value, str_lt x.1 y.1)).
  - by apply sorted_items_strict.
  - intros [k v] Hin. rewrite sorted_items_Permutation in Hin.
    rewrite Forall_forall in IH, Hall. unfold compose.
    rewrite leaf_titles_format_entry.
    apply (StronglySorted_fmap (k ::.) segments_lt segments_lt);
      [intros ???; by right|].
    destruct v as [|sub]; [repeat constructor|].
    apply (IH _ Hin (key_path_of cur k)), (Hall _ Hin).
  - intros [k1 v1] [k2 v2] a b _ _ Hlt. unfold compose.
    rewrite !leaf_titles_format_entry.
    intros (a' & -> & _)%list_elem_of_fmap (b' & -> & _)%list_elem_of_fmap.
    by left.
Qed.

(** The file keys are the keys of the recorded files, up to the order. *)
Lemma file_keys_format_tree (d : dict) (cur : string) :
  file_keys (format_tree d cur) ≡ₚ key_of cur <$> leaves d.
Proof.
  rewrite (file_keys_leaf_titles_value (PyDict d)). f_equiv.
  apply (leaf_titles_format_value (PyDict d)).
Qed.
End Order.

(** ** The loop without collision *)

Lemma foldl_insert_path_spec (l : list string) (d : dict) :
  Forall (λ p, parts (Path p) ≠ []) l →
  (∀ x y, leaf d x ∨ x ∈ (λ p, parts (Path p)) <$> l →
          leaf d y ∨ y ∈ (λ p, parts (Path p)) <$> l → ¬ proper_prefix x y) →
  keys_distinct (PyDict d) →
  ∃ d', foldl insert_path (Return d) l = Return d' ∧
        keys_distinct (PyDict d') ∧
        ∀ x, leaf d' x ↔ leaf d x ∨ x ∈ (λ p, parts (Path p)) <$> l.
Proof.
  revert d. induction l as [|p l IH]; intros d Hne Hfree Hd.
  { exists d. split; [done|]. split; [done|]. intros x. split; [by left|].
    by intros [?|?%elem_of_nil]. }
  apply Forall_cons_1 in Hne as [Hp Hne].
  destruct (insert_parts_spec (parts (Path p)) d Hp) as (d1 & Hins & Hspec).
  { intros x Hx. split; apply Hfree; auto; right; by left. }
  destruct (IH d1 Hne) as (d' & Hfold & Hd' & Hspec').
  - intros x y Hx Hy. apply Hfree.
    + destruct Hx as [[->|Hx]%Hspec|Hx]; [right; by left|by left|right; by right].
    + destruct Hy as [[->|Hy]%Hspec|Hy]; [right; by left|by left|right; by right].
  - by eapply insert_parts_keys_distinct.
  - exists d'. split; [simpl; by rewrite Hins|]. split; [done|].
    intros x. rewrite Hspec', Hspec, fmap_cons, elem_of_cons. tauto.
Qed.

(** ** Round trip *)

(** C7 fails as stated: the tree lists the folder [a] before the file
    [a.txt], while the sorted paths have [a.txt] before [a/b]. *)
Lemma build_tree_from_paths_keys_not_sorted :
  ∃ t, build_tree_from_paths ["a/b"; "a.txt"] = Return t ∧
       file_keys t = ["a/b"; "a.txt"] ∧
       remove_dups (sorted ["a/b"; "a.txt"]) = ["a.txt"; "a/b"] ∧
       file_keys t ≠ remove_dups (sorted ["a/b"; "a.txt"]).
Proof. eexists. split; [reflexivity|]. by vm_compute. Qed.

(** The order of the segments is not the order of the strings. *)
Lemma path_lt_not_string_order :
  path_lt "a/b" "a.txt" ∧ String.le "a.txt" "a/b" ∧ "a.txt" ≠ "a/b".
Proof.
  split_and!; [|by vm_compute|done].
  left. split; [by vm_compute|done].
Qed.

(** Outside the normal form the keys are not the paths: a "." segment
    is dropped and a backslash becomes a slash. *)
Lemma build_tree_from_paths_keys_rewritten :
  file_keys <$> build_tree_from_paths ["./a"] = Return ["a"] ∧
  file_keys <$> build_tree_from_paths ["x/a\b"] = Return ["x/a/b"].
Proof. by vm_compute. Qed.

(** C7, as the code has it. For paths in normal form, none of which
    runs through another, the builder returns a tree, and the keys of
    its File nodes are the sorted, de-duplicated input paths up to the
    order: every path once, in strictly ascending order of the segment
    lists (folder [a] and what it holds before file [a.txt]), not of the
    strings. *)
Theorem build_tree_from_paths_round_trip (paths : list string) :
  Forall relative_path paths →
  (∀ p q, p ∈ paths → q ∈ paths →
          ¬ proper_prefix (parts (Path p)) (parts (Path q))) →
  ∃ t, build_tree_from_paths paths = Return t ∧
       file_keys t ≡ₚ remove_dups (sorted paths) ∧
       StronglySorted path_lt (file_keys t).
Proof.
  intros Hrel Hfree.
  assert (∀ p, p ∈ sorted paths → p ∈ paths) as Hin.
  { intros p. by rewrite sorted_Permutation. }
  rewrite Forall_forall in Hrel.
  destruct (foldl_insert_path_spec (sorted paths) []) as (d & Hfold & Hd & Hspec).
  - apply Forall_forall. intros p Hp%Hin%Hrel.
    rewrite parts_relative_path by done. apply split_on_nonempty.
  - intros x y [?%leaf_empty|Hx] [?%leaf_empty|Hy]; [done..|].
    apply list_elem_of_fmap in Hx as (p & -> & Hp), Hy as (q & -> & Hq). auto.
  - split; [constructor|done].
  - exists (format_tree d ""). split.
    { unfold build_tree_from_paths. by rewrite build_dict_foldl, Hfold. }
    assert (∀ x, x ∈ leaves d ↔ ∃ p, x = parts (Path p) ∧ p ∈ sorted paths) as Hleaves.
    { intros x. rewrite elem_of_leaves, Hspec, list_elem_of_fmap by done.
      split; [by intros [?%leaf_empty|?]|by right]. }
    assert (∀ p, p ∈ sorted paths → key_of "" (parts (Path p)) = p) as Hkey.
    { intros p Hp%Hin%Hrel. rewrite parts_relative_path by done.
      by apply key_of_relative_path. }
    split.
    + rewrite file_keys_format_tree. apply NoDup_Permutation.
      * apply NoDup_fmap_2_strong; [|by apply leaves_value_NoDup].
        intros x y (p & -> & Hp)%Hleaves (q & -> & Hq)%Hleaves.
        rewrite !Hkey by done. by intros ->.
      * apply NoDup_remove_dups.
      * intros k. rewrite elem_of_remove_dups, list_elem_of_fmap. split.
        -- intros (x & -> & (p & -> & Hp)%Hleaves). by rewrite Hkey.
        -- intros Hk. exists (parts (Path k)). split; [by rewrite Hkey|].
           apply Hleaves. by exists k.
    + rewrite (file_keys_leaf_titles_value (PyDict d)).
      assert (∀ x, x ∈ leaf_titles (format_tree d "") →
                   parts (Path (key_of "" x)) = x) as Hparts.
      { intros x Hx. rewrite (leaf_titles_format_value (PyDict d) "") in Hx.
        apply Hleaves in Hx as (p & -> & Hp). by rewrite Hkey. }
      apply (StronglySorted_fmap_elem segments_lt).
      * intros x y Hx Hy Hlt. unfold path_lt. by rewrite !Hparts.
      * by apply (leaf_titles_sorted_value (PyDict d)).
Qed.

Lemma build_tree_from_paths_round_trip_witness :
  ∃ t, build_tree_from_paths ["src/main.py"; "a.txt"; "a/b"; "src/main.py"] = Return t ∧
       file_keys t ≡ₚ remove_dups (sorted ["src/main.py"; "a.txt"; "a/b"; "src/main.py"]) ∧
       StronglySorted path_lt (file_keys t).
Proof.
  apply (build_tree_from_paths_round_trip
           ["src/main.py"; "a.txt"; "a/b"; "src/main.py"]).
  - apply (bool_decide_unpack _). by vm_compute.
  - intros p q Hp Hq. revert q Hq. revert p Hp.
    apply (Forall_forall (λ p, ∀ q, q ∈ _ → ¬ proper_prefix (parts (Path p)) (parts (Path q)))).
    eapply Forall_impl; [|intros p Hp; apply Forall_forall, Hp].
    apply (bool_decide_unpack _). by vm_compute.
Defined.

(** * The exit of the script *)

Section Script.
Variable env : environment.

Lemma script_of_main :
  script env
  = match main env with
    | (Raise e, t) =>
        if is_Exception e
        then (SystemExit 1,
              t ++ [EvShowMessage "Критическая ошибка" (error_message env e) true])
        else (Raise e, t)
    | other => other
    end.
Proof. unfold script, IO.try_except. by destruct (main env) as [[| e |] t]. Qed.

Lemma main_no_files contents t :
  analyze_directory env (Path (cwd env)) = (Return ([], contents), t) →
  (main env).1 = SystemExit 0.
Proof. intros Ha. unfold main. by rewrite Ha. Qed.

Lemma main_files paths contents t :
  analyze_directory env (Path (cwd env)) = (Return (paths, contents), t) →
  paths ≠ [] →
  (main env).1
  = match build_tree_from_paths paths with
    | Return _ => from_option Raise (SystemExit 0) (write_error env)
    | Raise e => Raise e
    | SystemExit c => SystemExit c
    end.
Proof.
  intros Ha Hne. unfold main. rewrite Ha.
  unfold mbind, io_bind, IO.bind, IO.lift, write_snapshot. simpl.
  rewrite bool_decide_false by done.
  destruct (build_tree_from_paths paths); [|done..].
  by destruct (write_error env).
Qed.

Lemma script_status_of_main :
  process_status (script env)
  = match (main env).1 with
    | Return _ => Exited 0
    | SystemExit c => Exited c
    | Raise e => if is_Exception e then Exited 1 else Traceback e
    end.
Proof.
  rewrite script_of_main. destruct (main env) as [[| e |] t]; try done.
  simpl. by destruct (is_Exception e).
Qed.
End Script.

(** C9 fails as stated: when the snapshot cannot be written, the error is
    reported and the exit code is 1. *)
Lemma script_error_exit_code :
  (main read_only_project).1 = Raise PermissionError ∧
  process_status (script read_only_project) = Exited 1 ∧
  process_status (script read_only_project) ≠ Exited 0.
Proof. by vm_compute. Qed.

(** C9, as the code has it. The script exits with code 0 when no file is
    found and when the tree is built and the snapshot written; when an
    exception escapes [main], it is reported as an error and the script
    exits with code 1. *)
Theorem script_exit_code (env : environment) :
  (∀ contents t,
     analyze_directory env (Path (cwd env)) = (Return ([], contents), t) →
     process_status (script env) = Exited 0) ∧
  (∀ paths contents t tree,
     analyze_directory env (Path (cwd env)) = (Return (paths, contents), t) →
     build_tree_from_paths paths = Return tree →
     write_error env = None →
     process_status (script env) = Exited 0) ∧
  (∀ e,
     (main env).1 = Raise e → is_Exception e = true →
     process_status (script env) = Exited 1 ∧
     ∃ title message,
       last (script env).2 = Some (EvShowMessage title message true)).
Proof.
  split_and!.
  - intros contents t Ha. rewrite script_status_of_main.
    by rewrite (main_no_files _ _ _ Ha).
  - intros paths contents t tree Ha Ht Hw. rewrite script_status_of_main.
    destruct paths as [|p paths]; [by rewrite (main_no_files _ _ _ Ha)|].
    rewrite (main_files _ _ _ _ Ha) by done. by rewrite Ht, Hw.
  - intros e He Hexc. split.
    + rewrite script_status_of_main, He. by rewrite Hexc.
    + rewrite script_of_main. destruct (main env) as [r t]. simpl in He. subst r.
      rewrite Hexc. do 2 eexists. simpl. apply last_snoc.
Qed.

Lemma script_exit_code_witness :
  process_status (script empty_project) = Exited 0 ∧
  process_status (script (MkEnv "/home/u/proj" (FsDir [("a.py", FsFile)])
                            (λ _, Readable [x41]) "cortex-dev-analyzer.py"
                            "2026-11-04T00:00:00+00:00" (λ _, "A") None (λ _, "")))
  = Exited 0 ∧
  process_status (script read_only_project) = Exited 1.
Proof.
  split_and!.
  - eapply (proj1 (script_exit_code empty_project)). reflexivity.
  - eapply (proj1 (proj2 (script_exit_code _))); reflexivity.
  - eapply (proj2 (proj2 (script_exit_code read_only_project)) PermissionError);
      reflexivity.
Defined.

(** * Further properties of the classifier *)

Lemma extension_sets_disjoint (ext : string) :
  ext ∈ BINARY_FILE_EXTENSIONS → ext ∉ FORCE_TEXT_FILE_EXTENSIONS.
Proof.
  intros Hb Ht. revert Hb. apply (Forall_forall (λ x, x ∉ BINARY_FILE_EXTENSIONS)
    FORCE_TEXT_FILE_EXTENSIONS); [|done].
  apply (bool_decide_unpack _). by vm_compute.
Qed.

(** X1. A path whose lowercased extension is in the force-binary set is
    classified Binary whatever the file holds, and the file is neither
    opened nor read. *)
Theorem is_text_file_force_binary (fs : filesystem) (file_path : PurePath) :
  lower (suffix file_path) ∈ BINARY_FILE_EXTENSIONS →
  is_text_file fs file_path = (Return false, []).
Proof.
  intros Hb. unfold is_text_file.
  rewrite (bool_decide_false _ (extension_sets_disjoint _ Hb)).
  by rewrite (bool_decide_true _ Hb).
Qed.

(** A [.PNG] file holding plain text is classified Binary. *)
Lemma is_text_file_force_binary_witness :
  is_text_file (λ _, Readable [x68; x69]) (Path "img/Shot.PNG") = (Return false, []).
Proof.
  apply (is_text_file_force_binary (λ _, Readable [x68; x69]) (Path "img/Shot.PNG")).
  apply (bool_decide_unpack _). by vm_compute.
Defined.

(** X2. The only exceptions that leave [is_text_file] are those, other
    than [OSError] and its subclasses, that opening or reading the file
    raised; and [is_text_file] never ends the process. *)
Theorem is_text_file_raises (fs : filesystem) (file_path : PurePath) :
  (∀ e, (is_text_file fs file_path).1 = Raise e →
        is_OSError e = false ∧
        (fs (fspath file_path) = OpenFails e ∨ fs (fspath file_path) = ReadFails e)) ∧
  (∀ c, (is_text_file fs file_path).1 ≠ SystemExit c).
Proof.
  unfold is_text_file.
  destruct (bool_decide _); [by split|]. destruct (bool_decide _); [by split|].
  unfold sniff, IO.with_open, IO.try_except.
  destruct (fs (fspath file_path)) as [content|e'|e'] eqn:Hfs; simpl.
  - destruct (bool_decide _); by split.
  - destruct (is_OSError e') eqn:He'; simpl; split; try done.
    intros e [= <-]. auto.
  - destruct (is_OSError e') eqn:He'; simpl; split; try done.
    intros e [= <-]. auto.
Qed.

Lemma is_text_file_raises_witness :
  is_OSError ValueError = false ∧
  ((λ _ : string, OpenFails ValueError) (fspath (Path "data/blob"))
   = OpenFails ValueError ∨
   (λ _ : string, OpenFails ValueError) (fspath (Path "data/blob"))
   = ReadFails ValueError).
Proof.
  apply (proj1 (is_text_file_raises (λ _, OpenFails ValueError) (Path "data/blob"))).
  reflexivity.
Defined.

(** X3. [is_text_file] touches the file system in one of three ways:
    not at all; by one attempt to open the given path, which fails; or by
    opening that path, asking once for at most 1024 bytes, and closing
    the file, also when the read fails. *)
Theorem is_text_file_log (fs : filesystem) (file_path : PurePath) :
  (is_text_file fs file_path).2 = [] ∨
  ((is_text_file fs file_path).2 = [EvOpen (fspath file_path)] ∧
   ∃ e, fs (fspath file_path) = OpenFails e) ∨
  ((is_text_file fs file_path).2
   = [EvOpen (fspath file_path); EvRead (Some 1024%nat); EvClose] ∧
   ∀ e, fs (fspath file_path) ≠ OpenFails e).
Proof.
  unfold is_text_file.
  destruct (bool_decide _); [by left|]. destruct (bool_decide _); [by left|].
  right. unfold sniff, IO.with_open, IO.try_except.
  destruct (fs (fspath file_path)) as [content|e'|e'] eqn:Hfs; simpl.
  - right. by destruct (bool_decide _).
  - left. destruct (is_OSError e'); simpl; eauto.
  - right. by destruct (is_OSError e').
Qed.

(** X4. Only the first 1024 bytes of the file count: on two file systems
    whose files at the path agree on their first 1024 bytes, the
    classification and the calls made are the same. *)
Theorem is_text_file_prefix (fs1 fs2 : filesystem) (file_path : PurePath)
    (content1 content2 : list byte) :
  fs1 (fspath file_path) = Readable content1 →
  fs2 (fspath file_path) = Readable content2 →
  take 1024 content1 = take 1024 content2 →
  is_text_file fs1 file_path = is_text_file fs2 file_path.
Proof.
  intros H1 H2 Heq. unfold is_text_file.
  destruct (bool_decide _); [done|]. destruct (bool_decide _); [done|].
  by rewrite (sniff_readable _ _ _ H1), (sniff_readable _ _ _ H2), Heq.
Qed.

(** A NUL byte at offset 1024 goes unseen. *)
Lemma is_text_file_prefix_witness :
  is_text_file (λ _, Readable (replicate 1024 x41 ++ [x00])) (Path "data/blob")
  = is_text_file (λ _, Readable (replicate 1024 x41)) (Path "data/blob") ∧
  (is_text_file (λ _, Readable (replicate 1024 x41 ++ [x00])) (Path "data/blob")).1
  = Return true.
Proof.
  split; [|by vm_compute].
  apply (is_text_file_prefix _ _ (Path "data/blob")
           (replicate 1024 x41 ++ [x00]) (replicate 1024 x41)); by vm_compute.
Defined.

(** X19. The extension is lowercased as [str.lower] does it, the Kelvin
    sign included: the file [clip.MKV] whose K is U+212A KELVIN SIGN has
    the lowercased extension [.mkv], which is in the force-binary set,
    and is classified Binary without being opened, whatever it holds. *)
Theorem is_text_file_kelvin_sign (fs : filesystem) :
  let file_path := Path ("media/clip.M" +:+ kelvin_sign +:+ "V") in
  suffix file_path = ".M" +:+ kelvin_sign +:+ "V" ∧
  lower (suffix file_path) = ".mkv" ∧
  is_text_file fs file_path = (Return false, []).
Proof. intros file_path. split_and!; by vm_compute. Qed.

(** * Further properties of the tree builder *)

(** ** Insertion and lookup *)

Lemma prefix_of_cons_same (p : string) (l1 l2 : list string) :
  (p :: l1) `prefix_of` (p :: l2) ↔ l1 `prefix_of` l2.
Proof.
  split; [apply prefix_cons_inv_2|apply prefix_cons].
Qed.

(** X5. After an insertion that returns, the inserted path is recorded
    as a file; no other path is recorded that was not recorded before;
    and what was recorded before still is, except the paths that run
    through the inserted one. *)
Theorem insert_parts_lookup (ps : list string) (d d' : dict) :
  insert_parts ps d = Return d' →
  leaf d' ps ∧
  (∀ l, leaf d' l → l = ps ∨ leaf d l) ∧
  (∀ l, leaf d l → ¬ ps `prefix_of` l → leaf d' l).
Proof.
  revert d d'. induction ps as [|p rest IH]; intros d d'; [done|].
  destruct rest as [|p' rest'].
  - rewrite insert_parts_last. intros [= <-]. split_and!.
    + by apply leaf_dict_set_eq.
    + intros [|k l]; [by intros ?%leaf_nil|].
      destruct (decide (p = k)) as [<-|Hne].
      * rewrite leaf_dict_set_eq, lookup_path_none. destruct l; [by left|done].
      * rewrite leaf_dict_set_ne by done. by right.
    + intros [|k l]; [by intros ?%leaf_nil|]. intros Hl Hpre.
      rewrite leaf_dict_set_ne; [done|]. intros ->. apply Hpre.
      apply prefix_cons, prefix_nil.
  - rewrite insert_parts_cons. intros Hins.
    assert (∃ sub sub', insert_parts (p' :: rest') sub = Return sub' ∧
                        d' = dict_set d p (PyDict sub') ∧
                        ∀ l, leaf d (p :: l) ↔ leaf sub l)
      as (sub & sub' & Hsub & -> & Hd).
    { destruct (dict_get d p) as [[|sub]|] eqn:Hget; [done| |].
      - destruct (insert_parts (p' :: rest') sub) as [sub'| |] eqn:E; [|done..].
        injection Hins as <-. exists sub, sub'. split_and!; [done..|].
        intros l. rewrite leaf_cons, Hget. split.
        + by intros (v & [= <-] & ?).
        + intros ?. by exists (PyDict sub).
      - destruct (insert_parts (p' :: rest') []) as [sub'| |] eqn:E; [|done..].
        injection Hins as <-. exists [], sub'. split_and!; [done..|].
        intros l. rewrite leaf_cons, Hget. split.
        + by intros (v & [=] & ?).
        + by intros ?%leaf_empty. }
    destruct (IH _ _ Hsub) as (Hleaf & Hnew & Hold). split_and!.
    + by apply leaf_dict_set_eq.
    + intros [|k l]; [by intros ?%leaf_nil|].
      destruct (decide (p = k)) as [<-|Hne].
      * rewrite leaf_dict_set_eq. intros [->|Hl]%Hnew; [by left|].
        right. by apply Hd.
      * rewrite leaf_dict_set_ne by done. by right.
    + intros [|k l]; [by intros ?%leaf_nil|]. intros Hl Hpre.
      destruct (decide (p = k)) as [<-|Hne].
      * rewrite leaf_dict_set_eq. apply Hold; [by apply Hd|].
        by rewrite prefix_of_cons_same in Hpre.
      * by rewrite leaf_dict_set_ne.
Qed.

Lemma insert_parts_lookup_witness :
  leaf [("a", PyDict [("b", PyNone); ("c", PyNone)]); ("x", PyNone)] ["a"; "c"].
Proof.
  apply (proj1 (insert_parts_lookup ["a"; "c"]
                  [("a", PyDict [("b", PyNone)]); ("x", PyNone)] _ eq_refl)).
Defined.

(** ** Duplicates *)

Lemma dict_set_same (d : dict) (k : string) (v : value) :
  dict_get d k = Some v → dict_set d k v = d.
Proof.
  induction d as [|[k' v'] d IH]; simpl; [done|].
  case_bool_decide as Hk; [by intros [= ->]; subst|].
  intros Hget. by rewrite IH.
Qed.

(** Inserting a path a second time changes nothing. *)
Lemma insert_parts_again (ps : list string) (d d' : dict) :
  insert_parts ps d = Return d' → insert_parts ps d' = Return d'.
Proof.
  revert d d'. induction ps as [|p rest IH]; intros d d'; [done|].
  destruct rest as [|p' rest'].
  - rewrite !insert_parts_last. intros [= <-]. f_equal.
    apply dict_set_same, dict_get_set_eq.
  - rewrite !insert_parts_cons. intros Hins.
    assert (∃ sub sub', insert_parts (p' :: rest') sub = Return sub' ∧
                        d' = dict_set d p (PyDict sub')) as (sub & sub' & Hsub & ->).
    { destruct (dict_get d p) as [[|sub]|]; [done| |].
      - destruct (insert_parts (p' :: rest') sub) as [sub'| |] eqn:E; [|done..].
        injection Hins as <-. eauto.
      - destruct (insert_parts (p' :: rest') []) as [sub'| |] eqn:E; [|done..].
        injection Hins as <-. eauto. }
    rewrite dict_get_set_eq, (IH _ _ Hsub). simpl. f_equal.
    apply dict_set_same, dict_get_set_eq.
Qed.

Lemma insert_path_again (acc : outcome dict) (path : string) :
  insert_path (insert_path acc path) path = insert_path acc path.
Proof.
  destruct acc as [d| |]; [|done..]. simpl.
  destruct (insert_parts (parts (Path path)) d) as [d'| |] eqn:E; [|done..].
  simpl. by apply insert_parts_again in E.
Qed.

Lemma StronglySorted_remove_dups (l : list string) :
  StronglySorted String.le l → StronglySorted String.le (remove_dups l).
Proof.
  induction 1 as [|x l Hl IH Hx]; simpl; [constructor|].
  case_decide; [done|]. constructor; [done|].
  rewrite Forall_forall in Hx |- *. intros y Hy. apply Hx.
  by apply elem_of_remove_dups.
Qed.

(** In a sorted list equal paths are neighbours, so the second of them
    is inserted right after the first. *)
Lemma foldl_insert_path_remove_dups (l : list string) (acc : outcome dict) :
  StronglySorted String.le l →
  foldl insert_path acc (remove_dups l) = foldl insert_path acc l.
Proof.
  intros Hl. revert acc. induction Hl as [|x l Hl IH Hx]; intros acc; [done|].
  simpl. case_decide as Hin; [|apply IH].
  rewrite IH. destruct Hl as [|y l' Hl' Hy]; [by apply elem_of_nil in Hin|].
  assert (y = x) as ->.
  { apply (anti_symm String.le).
    - apply elem_of_cons in Hin as [->|Hin]; [done|].
      rewrite Forall_forall in Hy. by apply Hy.
    - by apply Forall_cons_1 in Hx as [? _]. }
  simpl. by rewrite insert_path_again.
Qed.

Lemma sorted_remove_dups (l : list string) :
  sorted (remove_dups l) = remove_dups (sorted l).
Proof.
  apply (StronglySorted_unique String.le).
  - apply sorted_sorted.
  - apply StronglySorted_remove_dups, sorted_sorted.
  - rewrite sorted_Permutation. apply NoDup_Permutation; try apply NoDup_remove_dups.
    intros x. by rewrite !elem_of_remove_dups, sorted_Permutation.
Qed.

Lemma build_dict_remove_dups (paths : list string) :
  build_dict (remove_dups paths) = build_dict paths.
Proof.
  rewrite !build_dict_foldl, sorted_remove_dups.
  apply foldl_insert_path_remove_dups, sorted_sorted.
Qed.

(** X6. The result depends on the set of the paths alone: two lists with
    the same members, in whatever order and however often repeated, give
    the same tree, or the same exception. *)
Theorem build_tree_from_paths_same_members (paths1 paths2 : list string) :
  (∀ p, p ∈ paths1 ↔ p ∈ paths2) →
  build_tree_from_paths paths1 = build_tree_from_paths paths2.
Proof.
  intros Hmem. unfold build_tree_from_paths.
  rewrite <-(build_dict_remove_dups paths1), <-(build_dict_remove_dups paths2).
  rewrite !build_dict_foldl. f_equal. f_equal. apply sorted_perm.
  apply NoDup_Permutation; try apply NoDup_remove_dups.
  intros p. by rewrite !elem_of_remove_dups.
Qed.

Lemma build_tree_from_paths_same_members_witness :
  build_tree_from_paths ["b/x"; "a"; "b/x"; "b/y"; "a"]
  = build_tree_from_paths ["b/y"; "b/x"; "a"].
Proof.
  apply (build_tree_from_paths_same_members
           ["b/x"; "a"; "b/x"; "b/y"; "a"] ["b/y"; "b/x"; "a"]).
  intros p. apply (bool_decide_unpack _). revert p.
  assert (∀ l1 l2 : list string,
            l1 ⊆ l2 → l2 ⊆ l1 → ∀ p, bool_decide (p ∈ l1 ↔ p ∈ l2)) as Hsub.
  { intros l1 l2 H1 H2 p. apply bool_decide_pack. split; [apply H1|apply H2]. }
  apply Hsub; apply (bool_decide_unpack _); by vm_compute.
Defined.

(** ** The empty tree and the paths without segments *)

Lemma dict_set_nonempty (d : dict) (k : string) (v : value) : dict_set d k v ≠ [].
Proof. destruct d as [|[k' v'] d]; simpl; [done|]. by case_bool_decide. Qed.

Lemma insert_parts_nonempty (ps : list string) (d d' : dict) :
  insert_parts ps d = Return d' → d' ≠ [].
Proof.
  destruct ps as [|p [|p' rest]]; [done|..].
  - rewrite insert_parts_last. intros [= <-]. apply dict_set_nonempty.
  - rewrite insert_parts_cons.
    destruct (dict_get d p) as [[|sub]|]; [done| |].
    + destruct (insert_parts (p' :: rest) sub); [|done..].
      intros [= <-]. apply dict_set_nonempty.
    + destruct (insert_parts (p' :: rest) []); [|done..].
      intros [= <-]. apply dict_set_nonempty.
Qed.

Lemma foldl_insert_path_nonempty (l : list string) (d d' : dict) :
  foldl insert_path (Return d) l = Return d' → d ≠ [] ∨ l ≠ [] → d' ≠ [].
Proof.
  revert d. induction l as [|x l IH]; intros d; simpl.
  { intros [= <-] [?|?]; done. }
  destruct (insert_parts (parts (Path x)) d) as [d1|e|c] eqn:Hins.
  - intros Hfold _. apply (IH _ Hfold). left. by eapply insert_parts_nonempty.
  - by rewrite foldl_insert_path_raise.
  - intros Hfold. exfalso. revert Hfold. clear. induction l; simpl; [done|auto].
Qed.

Lemma format_tree_length (d : dict) (cur : string) :
  length (format_tree d cur) = length d.
Proof.
  rewrite format_tree_unfold, length_fmap.
  apply Permutation_length, sorted_items_Permutation.
Qed.

(** X7. The builder returns the empty tree for the empty list of paths
    and for no other. *)
Theorem build_tree_from_paths_empty (paths : list string) :
  build_tree_from_paths paths = Return [] ↔ paths = [].
Proof.
  split; [|by intros ->].
  unfold build_tree_from_paths. rewrite build_dict_foldl.
  destruct (foldl insert_path (Return []) (sorted paths)) as [d| |] eqn:Hfold;
    [|done..].
  simpl. intros [= Hempty].
  destruct (decide (sorted paths = [])) as [Hs|Hs].
  - apply Permutation_nil. by rewrite <-Hs, sorted_Permutation.
  - exfalso. apply (foldl_insert_path_nonempty _ _ _ Hfold); [by right|].
    apply length_zero_iff_nil.
    by rewrite <-(format_tree_length d ""), Hempty.
Qed.

Lemma sorted_empty_first (paths : list string) :
  "" ∈ paths → ∃ l, sorted paths = "" :: l.
Proof.
  intros Hin. rewrite <-(sorted_Permutation paths) in Hin.
  pose proof (sorted_sorted paths) as Hs.
  destruct (sorted paths) as [|y l]; [by apply elem_of_nil in Hin|].
  exists l. f_equal. apply StronglySorted_inv in Hs as [_ Hy].
  apply elem_of_cons in Hin as [->|Hin]; [done|].
  rewrite Forall_forall in Hy. specialize (Hy _ Hin).
  by destruct y.
Qed.

(** X8. A path without segments, such as the empty string or ".", makes
    the builder raise; with the empty string among the paths, which is
    sorted first, what it raises is [IndexError]. *)
Theorem build_tree_from_paths_no_segment (paths : list string) (p : string) :
  p ∈ paths → parts (Path p) = [] →
  ∃ e, build_tree_from_paths paths = Raise e ∧ insert_error e ∧
       (p = "" → e = IndexError).
Proof.
  intros Hin Hparts. unfold build_tree_from_paths. rewrite build_dict_foldl.
  destruct (decide (p = "")) as [->|Hne].
  - destruct (sorted_empty_first _ Hin) as [l ->]. exists IndexError.
    simpl. rewrite foldl_insert_path_raise. split_and!; [done|by left|done].
  - pose proof Hin as Hs. rewrite <-(sorted_Permutation paths) in Hs.
    apply list_elem_of_split in Hs as (l1 & l2 & ->). rewrite foldl_app.
    destruct (foldl_insert_path_outcome l1 []) as [[d ->]|(e & -> & He)].
    + exists IndexError. simpl. rewrite Hparts. simpl.
      rewrite foldl_insert_path_raise. split_and!; [done|by left|done].
    + exists e. rewrite foldl_insert_path_raise. by split_and!.
Qed.

Lemma build_tree_from_paths_no_segment_witness :
  ∃ e, build_tree_from_paths ["src/a.py"; "."; "b"] = Raise e ∧ insert_error e ∧
       ("." = "" → e = IndexError).
Proof.
  apply (build_tree_from_paths_no_segment ["src/a.py"; "."; "b"] ".").
  - apply (bool_decide_unpack _). by vm_compute.
  - reflexivity.
Defined.

(** ** When the builder returns *)

(** X9. For paths in normal form, the builder returns a tree exactly
    when no path runs through another, that is when the segments of no
    path are the beginning of the segments of a longer one. *)
Theorem build_tree_from_paths_returns (paths : list string) :
  Forall relative_path paths →
  (∃ t, build_tree_from_paths paths = Return t) ↔
  (∀ p q, p ∈ paths → q ∈ paths →
          ¬ proper_prefix (parts (Path p)) (parts (Path q))).
Proof.
  intros Hrel. rewrite Forall_forall in Hrel. split.
  - intros [t Ht] p q Hp Hq Hpre.
    destruct (build_tree_from_paths_raises_normal_form paths p q)
      as (e & He & _); auto. congruence.
  - intros Hfree.
    destruct (foldl_insert_path_spec (sorted paths) []) as (d & Hfold & _).
    + apply Forall_forall. intros p Hp. rewrite sorted_Permutation in Hp.
      rewrite parts_relative_path by auto. apply split_on_nonempty.
    + intros x y [?%leaf_empty|Hx] [?%leaf_empty|Hy]; [done..|].
      apply list_elem_of_fmap in Hx as (p & -> & Hp), Hy as (q & -> & Hq).
      rewrite sorted_Permutation in Hp, Hq. auto.
    + split; [constructor|done].
    + exists (format_tree d ""). unfold build_tree_from_paths.
      by rewrite build_dict_foldl, Hfold.
Qed.

Lemma build_tree_from_paths_returns_witness :
  (∃ t, build_tree_from_paths ["a/b"; "a/c/d"; "e"] = Return t) ↔
  (∀ p q, p ∈ ["a/b"; "a/c/d"; "e"] → q ∈ ["a/b"; "a/c/d"; "e"] →
          ¬ proper_prefix (parts (Path p)) (parts (Path q))).
Proof.
  apply (build_tree_from_paths_returns ["a/b"; "a/c/d"; "e"]).
  apply (bool_decide_unpack _). by vm_compute.
Defined.

(** ** No empty folder *)

Lemma tree_node_ind_nested (P : tree_node → Prop) :
  (∀ k t, P (FileNode k t)) →
  (∀ k t children, Forall P children → P (FolderNode k t children)) →
  ∀ n, P n.
Proof.
  intros Hfile Hfolder. fix IH 1. intros [k t|k t children]; [apply Hfile|].
  apply Hfolder. induction children as [|c children IHc]; constructor.
  - apply IH.
  - exact IHc.
Qed.

Lemma populated_dict (d : dict) :
  populated (PyDict d) ↔ Forall (λ kv, kv.2 ≠ PyDict [] ∧ populated kv.2) d.
Proof.
  simpl. induction d as [|kv d IH]; simpl.
  - split; [constructor|done].
  - by rewrite Forall_cons, IH.
Qed.

Lemma populated_node_children (children : list tree_node) :
  foldr (λ c acc, populated_node c ∧ acc) True children
  ↔ Forall populated_node children.
Proof.
  induction children as [|c children IH]; simpl.
  - split; [constructor|done].
  - by rewrite Forall_cons, IH.
Qed.

Lemma dict_set_Forall (Q : string * value → Prop) (d : dict) (k : string) (v : value) :
  Forall Q d → Q (k, v) → Forall Q (dict_set d k v).
Proof.
  rewrite !Forall_forall. intros Hd Hkv [k' v'] Hin.
  apply dict_set_elem in Hin as [[= -> ->]|Hin]; auto.
Qed.

Lemma insert_parts_populated (ps : list string) (d d' : dict) :
  populated (PyDict d) → insert_parts ps d = Return d' → populated (PyDict d').
Proof.
  revert d d'. induction ps as [|p rest IH]; intros d d' Hd; [done|].
  destruct rest as [|p' rest'].
  - rewrite insert_parts_last. intros [= <-].
    apply populated_dict, dict_set_Forall; [by apply populated_dict|done].
  - rewrite insert_parts_cons.
    destruct (dict_get d p) as [[|sub]|] eqn:Hget; [done| |].
    + destruct (insert_parts (p' :: rest') sub) as [sub'| |] eqn:Hsub; [|done..].
      intros [= <-].
      apply populated_dict, dict_set_Forall; [by apply populated_dict|].
      simpl. split.
      * intros [= ->]. by apply insert_parts_nonempty in Hsub.
      * eapply IH; [|done].
        apply populated_dict in Hd. rewrite Forall_forall in Hd.
        apply dict_get_Some in Hget. apply (Hd _ Hget).
    + destruct (insert_parts (p' :: rest') []) as [sub'| |] eqn:Hsub; [|done..].
      intros [= <-].
      apply populated_dict, dict_set_Forall; [by apply populated_dict|].
      simpl. split.
      * intros [= ->]. by apply insert_parts_nonempty in Hsub.
      * eapply IH; [|done]. done.
Qed.

Lemma build_dict_populated (paths : list string) (d : dict) :
  build_dict paths = Return d → populated (PyDict d).
Proof.
  rewrite build_dict_foldl.
  assert (populated (PyDict [])) as Hd by done.
  revert Hd. generalize (@nil (string * value)) as d0.
  induction (sorted paths) as [|x l IH]; intros d0 Hd0; simpl.
  { by intros [= <-]. }
  destruct (insert_parts (parts (Path x)) d0) as [d1|e|c] eqn:Hins.
  - apply IH. by eapply insert_parts_populated.
  - by rewrite foldl_insert_path_raise.
  - clear. induction l; simpl; [done|auto].
Qed.

Lemma format_tree_populated (v : value) :
  populated v →
  match v with
  | PyNone => True
  | PyDict d => ∀ cur, Forall populated_node (format_tree d cur)
  end.
Proof.
  induction v as [|items IH] using value_ind_nested; intros Hv; [done|].
  intros cur. apply populated_dict in Hv.
  rewrite format_tree_unfold. apply Forall_fmap.
  rewrite sorted_items_Permutation. rewrite Forall_forall in IH, Hv |- *.
  intros [k [|sub]] Hin; simpl; [done|].
  destruct (Hv _ Hin) as [Hne Hsub]. split.
  - intros Hempty. apply Hne. simpl. f_equal. apply length_zero_iff_nil.
    by rewrite <-(format_tree_length sub (key_path_of cur k)), Hempty.
  - apply populated_node_children. by apply (IH _ Hin).
Qed.

Lemma populated_node_file_keys (n : tree_node) :
  populated_node n → file_keys_node n ≠ [].
Proof.
  induction n as [k t|k t children IH] using tree_node_ind_nested; [done|].
  intros [Hne Hall%populated_node_children]. simpl.
  destruct children as [|c children]; [done|].
  apply Forall_cons_1 in IH as [IHc _]. apply Forall_cons_1 in Hall as [Hc _].
  rewrite bind_cons. intros [Hnil _]%app_eq_nil. by apply IHc.
Qed.

(** X10. In a tree that the builder returns, no folder is empty, at any
    depth, and there is a file below every node. *)
Theorem build_tree_from_paths_populated (paths : list string) (t : list tree_node) :
  build_tree_from_paths paths = Return t →
  Forall (λ n, populated_node n ∧ file_keys_node n ≠ []) t.
Proof.
  unfold build_tree_from_paths.
  destruct (build_dict paths) as [d| |] eqn:Hd; [|done..]. simpl. intros [= <-].
  apply build_dict_populated in Hd.
  pose proof (format_tree_populated _ Hd "") as Hall.
  eapply Forall_impl; [exact Hall|]. intros n Hn.
  split; [done|by apply populated_node_file_keys].
Qed.

Lemma build_tree_from_paths_populated_witness :
  Forall (λ n, populated_node n ∧ file_keys_node n ≠ [])
    [FolderNode "a" "a" [FolderNode "a/b" "b" [FileNode "a/b/c" "c"]];
     FileNode "d" "d"].
Proof.
  apply (build_tree_from_paths_populated ["d"; "a/b/c"]). reflexivity.
Defined.

(** ** Keys and titles *)

Lemma segments_all_dict (P : string → Prop) (d : dict) :
  segments_all P (PyDict d) ↔ Forall (λ kv, P kv.1 ∧ segments_all P kv.2) d.
Proof.
  simpl. induction d as [|kv d IH]; simpl.
  - split; [constructor|done].
  - by rewrite Forall_cons, IH.
Qed.

Lemma keyed_under_children (cur : string) (children : list tree_node) :
  foldr (λ c acc, keyed_under cur c ∧ acc) True children
  ↔ Forall (keyed_under cur) children.
Proof.
  induction children as [|c children IH]; simpl.
  - split; [constructor|done].
  - by rewrite Forall_cons, IH.
Qed.

Lemma insert_parts_segments_all (P : string → Prop) (ps : list string) (d d' : dict) :
  Forall P ps → segments_all P (PyDict d) →
  insert_parts ps d = Return d' → segments_all P (PyDict d').
Proof.
  intros Hps. revert d d'. induction Hps as [|p rest Hp Hrest IH]; intros d d' Hd; [done|].
  destruct rest as [|p' rest'].
  - rewrite insert_parts_last. intros [= <-].
    apply segments_all_dict, dict_set_Forall; [by apply segments_all_dict|done].
  - rewrite insert_parts_cons.
    destruct (dict_get d p) as [[|sub]|] eqn:Hget; [done| |].
    + destruct (insert_parts (p' :: rest') sub) as [sub'| |] eqn:Hsub; [|done..].
      intros [= <-].
      apply segments_all_dict, dict_set_Forall; [by apply segments_all_dict|].
      split; [done|]. eapply IH; [|done].
      apply segments_all_dict in Hd. rewrite Forall_forall in Hd.
      apply dict_get_Some in Hget. apply (Hd _ Hget).
    + destruct (insert_parts (p' :: rest') []) as [sub'| |] eqn:Hsub; [|done..].
      intros [= <-].
      apply segments_all_dict, dict_set_Forall; [by apply segments_all_dict|].
      split; [done|]. eapply IH; [|done]. done.
Qed.

Lemma relative_path_segments (p : string) :
  relative_path p → Forall plain_segment (parts (Path p)).
Proof.
  intros Hrel. rewrite parts_relative_path by done.
  pose proof (split_on_no_sep sep p) as Hsep.
  unfold relative_path in Hrel. rewrite Forall_forall in Hrel, Hsep |- *.
  intros s Hs. destruct (Hrel s Hs) as (? & ? & ?). split_and!; auto.
Qed.

Lemma build_dict_segments_all (paths : list string) (d : dict) :
  Forall relative_path paths →
  build_dict paths = Return d → segments_all plain_segment (PyDict d).
Proof.
  intros Hrel. rewrite <-(sorted_Permutation paths) in Hrel.
  rewrite build_dict_foldl.
  assert (segments_all plain_segment (PyDict [])) as Hd by done.
  revert Hd. generalize (@nil (string * value)) as d0.
  induction Hrel as [|x l Hx Hl IH]; intros d0 Hd0; simpl.
  { by intros [= <-]. }
  destruct (insert_parts (parts (Path x)) d0) as [d1|e|c] eqn:Hins.
  - apply IH. eapply insert_parts_segments_all; [|done..].
    by apply relative_path_segments.
  - by rewrite foldl_insert_path_raise.
  - clear. induction l; simpl; [done|auto].
Qed.

Lemma key_path_of_child_key (cur k : string) :
  cur = "" ∨ plain_prefix cur → plain_segment k →
  key_path_of cur k = child_key cur k ∧ plain_prefix (child_key cur k).
Proof.
  intros [->|Hcur] Hk.
  - destruct Hk as (Hne & Hsep & Hbs). unfold child_key. simpl.
    rewrite key_path_of_root by done. split; [done|].
    split_and!; [done| |done]. by apply ends_with_absent.
  - unfold child_key. rewrite bool_decide_false by (by destruct Hcur).
    rewrite key_path_of_below by done. split; [done|].
    by apply plain_prefix_below.
Qed.

Lemma format_tree_keyed (v : value) :
  segments_all plain_segment v →
  match v with
  | PyNone => True
  | PyDict d =>
      ∀ cur, cur = "" ∨ plain_prefix cur → Forall (keyed_under cur) (format_tree d cur)
  end.
Proof.
  induction v as [|items IH] using value_ind_nested; intros Hv; [done|].
  intros cur Hcur. apply segments_all_dict in Hv.
  rewrite format_tree_unfold. apply Forall_fmap.
  rewrite sorted_items_Permutation. rewrite Forall_forall in IH, Hv |- *.
  intros [k v] Hin. destruct (Hv _ Hin) as [Hk Hsub]. simpl in Hk, Hsub.
  destruct (key_path_of_child_key cur k Hcur Hk) as [Hkey Hplain].
  destruct v as [|sub]; simpl; rewrite Hkey; [done|].
  split; [done|]. apply keyed_under_children.
  apply (IH _ Hin Hsub). by right.
Qed.

(** X11. For paths in normal form, in a tree that the builder returns
    every title is a non-empty segment without "/", the key of a node at
    the root is its title, and the key of a node in a folder is the key
    of the folder, a "/" and its title. *)
Theorem build_tree_from_paths_keyed (paths : list string) (t : list tree_node) :
  Forall relative_path paths →
  build_tree_from_paths paths = Return t →
  Forall (keyed_under "") t.
Proof.
  intros Hrel. unfold build_tree_from_paths.
  destruct (build_dict paths) as [d| |] eqn:Hd; [|done..]. simpl. intros [= <-].
  apply (format_tree_keyed (PyDict d)); [|by left].
  by apply build_dict_segments_all in Hd.
Qed.

Lemma build_tree_from_paths_keyed_witness :
  Forall (keyed_under "")
    [FolderNode "src" "src"
       [FolderNode "src/lib" "lib" [FileNode "src/lib/a.py" "a.py"];
        FileNode "src/main.py" "main.py"]].
Proof.
  apply (build_tree_from_paths_keyed ["src/main.py"; "src/lib/a.py"]).
  - apply (bool_decide_unpack _). by vm_compute.
  - reflexivity.
Defined.

(** * Further properties of the scan *)

(** ** What the scan does not see *)

Lemma fs_entry_ind_nested (P : fs_entry → Prop) :
  P FsFile →
  (∀ entries, Forall (λ ne, P ne.2) entries → P (FsDir entries)) →
  ∀ e, P e.
Proof.
  intros Hfile Hdir. fix IH 1. intros [|entries]; [exact Hfile|].
  apply Hdir. induction entries as [|[n e] entries IHe]; constructor.
  - apply IH.
  - exact IHe.
Qed.

Lemma file_names_app (l1 l2 : list (string * fs_entry)) :
  file_names (l1 ++ l2) = file_names l1 ++ file_names l2.
Proof. apply omap_app. Qed.

Lemma os_walk_dir (keep : string → bool) (top : string)
    (entries : list (string * fs_entry)) :
  os_walk keep top (FsDir entries)
  = (top, file_names entries) :: flat_map (walk_child keep top) entries.
Proof.
  cbn [os_walk]. f_equal. apply flat_map_ext. by intros [n [|sub]].
Qed.

Lemma visible_dir (kd kf : string → bool) (entries : list (string * fs_entry)) :
  visible kd kf (FsDir entries) = FsDir (flat_map (visible_child kd kf) entries).
Proof.
  cbn [visible]. f_equal. apply flat_map_ext. by intros [n [|sub]].
Qed.

Lemma file_names_visible (kd kf : string → bool) (entries : list (string * fs_entry)) :
  file_names (flat_map (visible_child kd kf) entries)
  = List.filter kf (file_names entries).
Proof.
  induction entries as [|[n [|sub]] entries IH]; [done|..].
  - cbn [flat_map]. rewrite file_names_app, IH.
    change (file_names ((n, FsFile) :: entries)) with (n :: file_names entries).
    unfold visible_child. cbn [List.filter fst snd]. by destruct (kf n).
  - cbn [flat_map]. rewrite file_names_app, IH.
    change (file_names ((n, FsDir sub) :: entries)) with (file_names entries).
    unfold visible_child. cbn [fst snd]. by destruct (kd n).
Qed.

(** Walking what is left visits the same directories and finds in each
    the files that are kept. *)
Lemma os_walk_visible (kf : string → bool) (e : fs_entry) (top : string) :
  os_walk kept_dir top (visible kept_dir kf e)
  = List.map (λ '(root, files), (root, List.filter kf files))
             (os_walk kept_dir top e).
Proof.
  revert top. induction e as [|entries IH] using fs_entry_ind_nested; intros top;
    [done|].
  rewrite visible_dir, !os_walk_dir, file_names_visible. cbn [List.map]. f_equal.
  induction IH as [|[n e] entries He _ IHe]; [done|].
  cbn [flat_map]. rewrite flat_map_app, List.map_app, IHe. f_equal.
  cbn [snd] in He. destruct e as [|sub].
  - unfold visible_child, walk_child. cbn [fst snd]. by destruct (kf n).
  - unfold visible_child, walk_child at 2. cbn [fst snd].
    destruct (kept_dir n) eqn:Hn; [|done].
    cbn [flat_map]. rewrite app_nil_r, <-He.
    rewrite visible_dir. unfold walk_child. cbn [fst snd]. by rewrite Hn.
Qed.

Section Loops.
Context {X S : Type}.
Implicit Types (body : S → X → io S) (xs : list X) (s : S).

Lemma io_bind_ret {A B} (a : A) (k : A → io B) : (mret a ≫= k) = k a.
Proof.
  unfold mbind, io_bind, mret, io_ret, IO.bind, IO.ret. by destruct (k a).
Qed.

Lemma io_bind_ext {A B} (m : io A) (k1 k2 : A → io B) :
  (∀ a, k1 a = k2 a) → (m ≫= k1) = (m ≫= k2).
Proof.
  intros Hk. unfold mbind, io_bind, IO.bind.
  destruct m as [[a|e|c] t]; [|done..]. by rewrite Hk.
Qed.

Lemma for_each_ext body1 body2 xs s :
  (∀ s x, body1 s x = body2 s x) → for_each xs body1 s = for_each xs body2 s.
Proof.
  intros Hb. revert s. induction xs as [|x xs IH]; intros s; [done|].
  simpl. rewrite Hb. by apply io_bind_ext.
Qed.

Lemma for_each_filter (kf : X → bool) body xs s :
  (∀ s x, kf x = false → body s x = mret s) →
  for_each (List.filter kf xs) body s = for_each xs body s.
Proof.
  intros Hskip. revert s. induction xs as [|x xs IH]; intros s; [done|].
  cbn [List.filter]. destruct (kf x) eqn:Hx.
  - simpl. by apply io_bind_ext.
  - simpl. by rewrite (Hskip _ _ Hx), io_bind_ret.
Qed.

Lemma for_each_map {Y} (F : Y → X) body (ys : list Y) s :
  for_each (List.map F ys) body s = for_each ys (λ s y, body s (F y)) s.
Proof.
  revert s. induction ys as [|y ys IH]; intros s; [done|].
  simpl. by apply io_bind_ext.
Qed.
End Loops.

Lemma analyze_directory_loops (env : environment) (root_path : PurePath) :
  analyze_directory env root_path
  = for_each (os_walk kept_dir (fspath root_path) (disk env))
             (scan_dir env root_path) ([], ∅).
Proof.
  unfold analyze_directory. apply for_each_ext. intros st [root files].
  unfold scan_dir. apply for_each_ext. by intros [paths contents] filename.
Qed.

Lemma scan_file_skipped (env : environment) (root_path current_path : PurePath)
    (st : list string * gmap string string) (filename : string) :
  kept_file env filename = false →
  scan_file env root_path current_path st filename = mret st.
Proof.
  unfold kept_file, scan_file. destruct st as [paths contents].
  by destruct (bool_decide _).
Qed.

(** X12. The scan sees neither the ignored directories, with all they
    hold, nor the files named like the script or like the output file,
    at any depth: with all of them taken out of the directory tree, it
    returns the same paths and contents and makes the same calls. *)
Theorem analyze_directory_visible (env : environment) (root_path : PurePath) :
  analyze_directory
    (with_disk env (visible kept_dir (kept_file env) (disk env))) root_path
  = analyze_directory env root_path.
Proof.
  rewrite !analyze_directory_loops. cbn [with_disk disk].
  rewrite os_walk_visible, for_each_map.
  etrans; [|apply for_each_ext; intros st [root files]; reflexivity].
  apply for_each_ext. intros st [root files]. unfold scan_dir. cbn [fst snd].
  etrans; [apply for_each_filter|apply for_each_ext].
  - intros s x Hx. by apply scan_file_skipped.
  - by intros [paths contents] filename.
Qed.

(** ** What the scan returns and does *)

Section Post.
Context {A B : Type} (Q : fs_event → Prop).

Lemma io_post_ret (I : A → Prop) (a : A) : I a → io_post I Q (mret a).
Proof. intros Ha. split; [constructor|done]. Qed.

Lemma io_post_bind (I : A → Prop) (J : B → Prop) (m : io A) (k : A → io B) :
  io_post I Q m → (∀ a, I a → io_post J Q (k a)) → io_post J Q (m ≫= k).
Proof.
  intros [Ht Hm] Hk. unfold mbind, io_bind, IO.bind.
  destruct m as [[a|e|c] t]; simpl in *; [|done..].
  destruct (Hk a Hm) as [Ht' Hk']. destruct (k a) as [r t']. simpl in *.
  split; [by apply Forall_app|done].
Qed.

Lemma io_post_try_except (I : A → Prop) (body : io A)
    (catches : py_exception → bool) (handler : py_exception → io A) :
  io_post (λ _, True) Q body →
  (∀ a, body.1 = Return a → I a) →
  (∀ e, io_post I Q (handler e)) →
  io_post I Q (IO.try_except body catches handler).
Proof.
  intros [Ht Hm] Hret Hh. unfold IO.try_except.
  destruct body as [[a|e|c] t]; simpl in *; [split; [done|by apply Hret]| |done].
  destruct (catches e); [|by split].
  destruct (Hh e) as [Ht' Hk']. destruct (handler e) as [r t']. simpl in *.
  split; [by apply Forall_app|done].
Qed.

Lemma io_post_lift (I : A → Prop) (m : outcome A) :
  (∀ a, m = Return a → I a) → (∀ c, m ≠ SystemExit c) → io_post I Q (IO.lift m).
Proof.
  intros Hret Hexit. split; [constructor|]. simpl.
  destruct m as [a|e|c]; [by apply Hret|done|by destruct (Hexit c)].
Qed.

End Post.

Lemma io_post_for_each {A B} (Q : fs_event → Prop) (I : A → Prop)
    (body : A → B → io A) (xs : list B) (s : A) :
  (∀ s x, I s → io_post I Q (body s x)) → I s → io_post I Q (for_each xs body s).
Proof.
  intros Hb. revert s. induction xs as [|x xs IH]; intros s Hs.
  - by apply io_post_ret.
  - simpl. eapply io_post_bind; [by apply Hb|]. apply IH.
Qed.

Lemma io_post_is_text_file (fs : filesystem) (file_path : PurePath) :
  io_post (λ _, True) read_event (is_text_file fs file_path).
Proof.
  unfold is_text_file.
  destruct (bool_decide _); [by apply io_post_ret|].
  destruct (bool_decide _); [by apply io_post_ret|].
  unfold sniff, IO.with_open, IO.try_except.
  destruct (fs (fspath file_path)) as [content|e|e]; simpl.
  - destruct (bool_decide _); split; simpl; by repeat constructor.
  - destruct (is_OSError e); split; simpl; by repeat constructor.
  - destruct (is_OSError e); split; simpl; by repeat constructor.
Qed.

Lemma io_post_read_text (env : environment) (file_path : PurePath) :
  io_post (λ _, True) read_event (read_text env file_path).
Proof.
  unfold read_text, IO.with_open.
  destruct (open_file env (fspath file_path)) as [content|e|e]; simpl;
    split; simpl; by repeat constructor.
Qed.

Lemma relative_to_no_exit (p other : PurePath) (c : Z) :
  relative_to p other ≠ SystemExit c.
Proof. unfold relative_to. by destruct (bool_decide _). Qed.

Lemma scan_file_post (env : environment) (root_path current_path : PurePath)
    (st : list string * gmap string string) (filename : string) :
  scan_state_ok st →
  io_post scan_state_ok read_event (scan_file env root_path current_path st filename).
Proof.
  intros Hst. unfold scan_file. destruct st as [paths contents].
  destruct (bool_decide _); [by apply io_post_ret|].
  eapply io_post_bind.
  { apply (io_post_lift _ (λ _, True)); [done|apply relative_to_no_exit]. }
  intros rel _.
  assert (scan_state_ok (paths ++ [replace_char sep "/" (fspath rel)], contents))
    as Hst'.
  { intros k Hk. apply elem_of_app. left. by apply Hst. }
  eapply io_post_bind; [apply io_post_is_text_file|].
  intros [|] _; [|by apply io_post_ret].
  apply io_post_try_except.
  - eapply io_post_bind; [apply io_post_read_text|].
    intros content _. by apply io_post_ret.
  - unfold mbind, io_bind, IO.bind.
    destruct (read_text env (truediv current_path filename)) as [[content|e|c] t];
      simpl; [|done..].
    intros a [= <-] k. simpl. rewrite lookup_insert_is_Some.
    intros [<-|[_ Hk]]; apply elem_of_app; [right; by left|left; by apply Hst].
  - intros e. by apply io_post_ret.
Qed.

Lemma analyze_directory_post (env : environment) (root_path : PurePath) :
  io_post scan_state_ok read_event (analyze_directory env root_path).
Proof.
  rewrite analyze_directory_loops. apply io_post_for_each.
  - intros st [root files] Hst. unfold scan_dir. apply io_post_for_each; [|done].
    intros st' filename Hst'. by apply scan_file_post.
  - by intros k [v Hv].
Qed.

(** X13. When the scan returns, every path that has a content in the
    mapping of text contents is in the list of paths. *)
Theorem analyze_directory_contents_listed (env : environment) (root_path : PurePath)
    (paths : list string) (contents : gmap string string) :
  (analyze_directory env root_path).1 = Return (paths, contents) →
  ∀ k, is_Some (contents !! k) → k ∈ paths.
Proof.
  intros Hret. destruct (analyze_directory_post env root_path) as [_ Hpost].
  rewrite Hret in Hpost. exact Hpost.
Qed.

(** X14. The scan only reads: every call it makes opens, reads or closes
    a file, nothing is written and no message is shown, and it never ends
    the process. *)
Theorem analyze_directory_reads (env : environment) (root_path : PurePath) :
  Forall read_event (analyze_directory env root_path).2 ∧
  ∀ c, (analyze_directory env root_path).1 ≠ SystemExit c.
Proof.
  destruct (analyze_directory_post env root_path) as [Ht Hpost].
  split; [done|]. intros c Hc. by rewrite Hc in Hpost.
Qed.

Lemma analyze_directory_contents_listed_witness :
  is_Some ((<["a.py" := "A"]> ∅ : gmap string string) !! "a.py") ∧
  "a.py" ∈ ["a.py"].
Proof.
  assert (is_Some ((<["a.py" := "A"]> ∅ : gmap string string) !! "a.py")) as Hk.
  { exists "A". by vm_compute. }
  split; [exact Hk|].
  apply (analyze_directory_contents_listed read_only_project
           (Path (cwd read_only_project)) ["a.py"] (<["a.py" := "A"]> ∅));
    [by vm_compute|exact Hk].
Defined.

(** ** The paths do not depend on the files *)

Lemma io_bind_return_inv {A B} (m : io A) (k : A → io B) (b : B) :
  (m ≫= k).1 = Return b → ∃ a, m.1 = Return a ∧ (k a).1 = Return b.
Proof.
  unfold mbind, io_bind, IO.bind. destruct m as [[a|e|c] t]; simpl; [|done..].
  intros Hk. exists a. split; [done|]. by destruct (k a).
Qed.

Lemma for_each_fold_outcome {X S A} (proj : S → A) (body : S → X → io S)
    (f : A → X → outcome A) (xs : list X) (s s' : S) :
  (∀ s x s', (body s x).1 = Return s' → f (proj s) x = Return (proj s')) →
  (for_each xs body s).1 = Return s' →
  fold_outcome f xs (proj s) = Return (proj s').
Proof.
  intros Hb. revert s. induction xs as [|x xs IH]; intros s; simpl.
  { by intros [= <-]. }
  intros (s1 & Hs1 & Hrest)%io_bind_return_inv.
  rewrite (Hb _ _ _ Hs1). simpl. by apply IH.
Qed.

Lemma try_except_return_inv {A} (body : io A) (catches : py_exception → bool)
    (handler : py_exception → io A) (a : A) :
  (IO.try_except body catches handler).1 = Return a →
  body.1 = Return a ∨ ∃ e, (handler e).1 = Return a.
Proof.
  unfold IO.try_except. destruct body as [[a'|e|c] t]; simpl; [by left| |done].
  destruct (catches e); [|done]. intros Hh. right. exists e.
  by destruct (handler e).
Qed.

Lemma scan_file_list_file (env : environment) (root_path current_path : PurePath)
    (st st' : list string * gmap string string) (filename : string) :
  (scan_file env root_path current_path st filename).1 = Return st' →
  list_file env root_path current_path st.1 filename = Return st'.1.
Proof.
  unfold scan_file, list_file. destruct st as [paths contents].
  destruct (bool_decide _); [by intros [= <-]|].
  intros (rel & Hrel & Hrest)%io_bind_return_inv.
  simpl in Hrel. rewrite Hrel. simpl.
  apply io_bind_return_inv in Hrest as ([|] & _ & Hrest); [|by injection Hrest as <-].
  apply try_except_return_inv in Hrest as [Hrest|[e Hrest]];
    [|by injection Hrest as <-].
  apply io_bind_return_inv in Hrest as (content & _ & Hrest).
  by injection Hrest as <-.
Qed.

Lemma analyze_directory_listed (env : environment) (root_path : PurePath)
    (paths : list string) (contents : gmap string string) :
  (analyze_directory env root_path).1 = Return (paths, contents) →
  listed_paths env root_path = Return paths.
Proof.
  rewrite analyze_directory_loops. unfold listed_paths.
  apply (for_each_fold_outcome fst (scan_dir env root_path)).
  intros st [root files] st'. unfold scan_dir. cbn [fst snd].
  apply (for_each_fold_outcome fst (scan_file env root_path (Path root))
           (list_file env root_path (Path root))).
  intros s x s'. apply scan_file_list_file.
Qed.

(** X15. The list of paths that the scan returns is decided by the
    directory tree alone: whatever the files hold, whether or not they
    can be opened and read, and however they are classified, a scan that
    returns gives the same list. *)
Theorem analyze_directory_paths_independent (env : environment)
    (fs : filesystem) (decode : list byte → string) (root_path : PurePath)
    (paths1 paths2 : list string) (contents1 contents2 : gmap string string) :
  (analyze_directory env root_path).1 = Return (paths1, contents1) →
  (analyze_directory (with_files env fs decode) root_path).1
  = Return (paths2, contents2) →
  paths1 = paths2.
Proof.
  intros H1%analyze_directory_listed H2%analyze_directory_listed.
  change (listed_paths (with_files env fs decode) root_path)
    with (listed_paths env root_path) in H2.
  congruence.
Qed.

(** The same project with every file unreadable: the same paths, and no
    content. *)
Lemma analyze_directory_paths_independent_witness :
  ["a.py"] = ["a.py"] ∧
  (analyze_directory
     (with_files read_only_project (λ _, OpenFails PermissionError) (λ _, ""))
     (Path (cwd read_only_project))).1
  = Return (["a.py"], ∅).
Proof.
  split; [|by vm_compute].
  apply (analyze_directory_paths_independent read_only_project
           (λ _, OpenFails PermissionError) (λ _, "")
           (Path (cwd read_only_project)) ["a.py"] ["a.py"]
           (<["a.py" := "A"]> ∅) ∅); by vm_compute.
Defined.

(** ** Errors that do not stop the scan *)

Section Raises.
Context (E : py_exception → Prop).

Lemma io_raises_bind {A B} (m : io A) (k : A → io B) :
  io_raises E m → (∀ a, io_raises E (k a)) → io_raises E (m ≫= k).
Proof.
  intros Hm Hk e. unfold mbind, io_bind, IO.bind.
  destruct m as [[a|e'|c] t]; simpl; [|by intros [= <-]; apply Hm|done].
  specialize (Hk a e). destruct (k a) as [r t']. exact Hk.
Qed.

Lemma io_raises_ret {A} (a : A) : io_raises E (mret a : io A).
Proof. by intros e. Qed.

Lemma io_raises_try_except {A} (body : io A) (catches : py_exception → bool)
    (handler : py_exception → io A) :
  (∀ e, body.1 = Raise e → catches e = false → E e) →
  (∀ e, io_raises E (handler e)) →
  io_raises E (IO.try_except body catches handler).
Proof.
  intros Hb Hh e. unfold IO.try_except.
  destruct body as [[a|e'|c] t]; simpl in *; [done| |done].
  destruct (catches e') eqn:Hc.
  - specialize (Hh e' e). by destruct (handler e').
  - intros [= <-]. by apply Hb.
Qed.

Lemma io_raises_for_each {A B} (body : A → B → io A) (xs : list B) (s : A) :
  (∀ s x, io_raises E (body s x)) → io_raises E (for_each xs body s).
Proof.
  intros Hb. revert s. induction xs as [|x xs IH]; intros s.
  - apply io_raises_ret.
  - simpl. by apply io_raises_bind.
Qed.
End Raises.

Lemma is_Exception_OSError (e : py_exception) :
  is_Exception e = false → is_OSError e = false.
Proof. by destruct e. Qed.

Lemma scan_file_raises (env : environment) (root_path current_path : PurePath)
    (st : list string * gmap string string) (filename : string) :
  io_raises (λ e, is_OSError e = false)
    (scan_file env root_path current_path st filename).
Proof.
  unfold scan_file. destruct st as [paths contents].
  destruct (bool_decide _); [apply io_raises_ret|].
  apply io_raises_bind.
  { intros e. unfold IO.lift, relative_to. simpl.
    destruct (bool_decide _); [done|]. by intros [= <-]. }
  intros rel. apply io_raises_bind.
  { intros e. unfold is_text_file.
    destruct (bool_decide _); [done|]. destruct (bool_decide _); [done|].
    unfold sniff, IO.with_open, IO.try_except.
    destruct (open_file env _) as [content|e'|e']; simpl.
    - by destruct (bool_decide _).
    - destruct (is_OSError e') eqn:He'; [done|]. by intros [= <-].
    - destruct (is_OSError e') eqn:He'; [done|]. by intros [= <-]. }
  intros [|]; [|apply io_raises_ret].
  apply io_raises_try_except.
  - intros e _. apply is_Exception_OSError.
  - intros e. apply io_raises_ret.
Qed.

(** X18. No [OSError] leaves the scan: a file that cannot be opened or
    read, for want of permission or because it is gone, never stops
    it. *)
Theorem analyze_directory_no_oserror (env : environment) (root_path : PurePath)
    (e : py_exception) :
  (analyze_directory env root_path).1 = Raise e → is_OSError e = false.
Proof.
  revert e. rewrite analyze_directory_loops.
  apply (io_raises_for_each (λ e, is_OSError e = false)).
  intros st [root files]. unfold scan_dir.
  apply io_raises_for_each. intros st' filename. apply scan_file_raises.
Qed.

(** A file whose name the system refuses with a [ValueError] stops the
    scan; a [PermissionError] on the same file does not. *)
Lemma analyze_directory_no_oserror_witness :
  is_OSError ValueError = false ∧
  (analyze_directory
     (with_files
        (with_disk read_only_project (FsDir [("notes", FsFile)]))
        (λ _, OpenFails PermissionError) (λ _, ""))
     (Path (cwd read_only_project))).1
  = Return (["notes"], ∅).
Proof.
  split; [|by vm_compute].
  apply (analyze_directory_no_oserror
           (with_files
              (with_disk read_only_project (FsDir [("notes", FsFile)]))
              (λ _, OpenFails ValueError) (λ _, ""))
           (Path (cwd read_only_project)) ValueError).
  by vm_compute.
Defined.

(** * Further properties of the script *)

Lemma build_tree_from_paths_no_exit (paths : list string) (c : Z) :
  build_tree_from_paths paths ≠ SystemExit c.
Proof.
  unfold build_tree_from_paths. rewrite build_dict_foldl.
  by destruct (foldl_insert_path_outcome (sorted paths) [])
    as [[d ->]|(e & -> & _)].
Qed.

(** The ways through [main]. *)
Lemma main_cases (env : environment) :
  let scan := analyze_directory env (Path (cwd env)) in
  let output := fspath (truediv (Path (cwd env)) OUTPUT_FILENAME) in
  (∃ e, scan.1 = Raise e ∧ main env = (Raise e, scan.2)) ∨
  (∃ contents title message,
     scan.1 = Return ([], contents) ∧
     main env = (SystemExit 0, scan.2 ++ [EvShowMessage title message false])) ∨
  (∃ paths contents e,
     scan.1 = Return (paths, contents) ∧ paths ≠ [] ∧
     build_tree_from_paths paths = Raise e ∧ main env = (Raise e, scan.2)) ∨
  (∃ paths contents tree e,
     scan.1 = Return (paths, contents) ∧ paths ≠ [] ∧
     build_tree_from_paths paths = Return tree ∧ write_error env = Some e ∧
     main env
     = (Raise e,
        scan.2 ++ [EvWrite output (MkSnapshot "1.2.0" (now env) tree contents)])) ∨
  (∃ paths contents tree title message,
     scan.1 = Return (paths, contents) ∧ paths ≠ [] ∧
     build_tree_from_paths paths = Return tree ∧ write_error env = None ∧
     main env
     = (SystemExit 0,
        scan.2 ++ [EvWrite output (MkSnapshot "1.2.0" (now env) tree contents);
                   EvShowMessage title message false])).
Proof.
  intros scan output. unfold main. fold scan.
  pose proof (proj2 (analyze_directory_reads env (Path (cwd env)))) as Hexit.
  fold scan in Hexit.
  destruct scan as [[[paths contents]|e|c] t]; simpl in *.
  - destruct (decide (paths = [])) as [->|Hne].
    + right. left. by eexists _, _, _.
    + rewrite bool_decide_false by done.
      unfold mbind, io_bind, mret, io_ret, IO.ret, IO.bind, IO.lift, write_snapshot.
      simpl.
      pose proof (build_tree_from_paths_no_exit paths) as Hbuild.
      destruct (build_tree_from_paths paths) as [tree|e|c] eqn:Ht;
        [|right; right; left|by destruct (Hbuild c)].
      * destruct (write_error env) as [e|] eqn:Hw.
        -- right. right. right. left. by exists paths, contents, tree, e.
        -- right. right. right. right. by eexists paths, contents, tree, _, _.
      * exists paths, contents, e. by rewrite ?app_nil_r.
  - left. by exists e.
  - by destruct (Hexit c).
Qed.

Lemma reads_then_write (t l before after : list fs_event) (path : string)
    (doc : snapshot) :
  Forall read_event t →
  t ++ l = before ++ EvWrite path doc :: after →
  ∃ l', l = l' ++ EvWrite path doc :: after ∧ before = t ++ l'.
Proof.
  intros Ht. revert before. induction Ht as [|ev t Hev Ht IH]; intros before Heq.
  - exists before. by simpl in Heq.
  - destruct before as [|ev' before]; simpl in Heq.
    + injection Heq as -> _. by destruct Hev.
    + injection Heq as <- Heq. destruct (IH _ Heq) as (l' & -> & ->).
      by exists l'.
Qed.

(** X16. The script writes, or tries to write, at most one snapshot:
    whenever a write is in its log, the scan has returned a non-empty
    list of paths, the snapshot written holds the tree built from these
    paths, the contents the scan returned, the version "1.2.0" and the
    time of the run, and goes to [cortex-snapshot.json] in the working
    directory; before it the log holds only reads, and after it only
    the message shown at the end. *)
Theorem script_write (env : environment) (path : string) (doc : snapshot)
    (before after : list fs_event) :
  (script env).2 = before ++ EvWrite path doc :: after →
  (∃ paths contents,
     (analyze_directory env (Path (cwd env))).1 = Return (paths, contents) ∧
     paths ≠ [] ∧
     build_tree_from_paths paths = Return (tree doc) ∧
     files doc = contents ∧ version doc = "1.2.0" ∧ createdAt doc = now env) ∧
  path = fspath (truediv (Path (cwd env)) OUTPUT_FILENAME) ∧
  before = (analyze_directory env (Path (cwd env))).2 ∧
  Forall read_event before ∧
  (after = [] ∨ ∃ title message is_error, after = [EvShowMessage title message is_error]).
Proof.
  pose proof (proj1 (analyze_directory_reads env (Path (cwd env)))) as Hreads.
  rewrite script_of_main.
  destruct (main_cases env)
    as [(e & Hs & ->)|[(c & ti & m & Hs & ->)|[(ps & c & e & Hs & Hne & Hb & ->)|
        [(ps & c & tr & e & Hs & Hne & Hb & Hw & ->)|
         (ps & c & tr & ti & m & Hs & Hne & Hb & Hw & ->)]]]].
  - destruct (is_Exception e); simpl; intros Heq.
    + destruct (reads_then_write _ _ _ _ _ _ Hreads Heq) as (l' & Hl' & _).
      destruct l' as [|? [|]]; discriminate.
    + rewrite <-(app_nil_r (_.2)) in Heq.
      destruct (reads_then_write _ _ _ _ _ _ Hreads Heq) as (l' & Hl' & _).
      destruct l'; discriminate.
  - simpl. intros Heq.
    destruct (reads_then_write _ _ _ _ _ _ Hreads Heq) as (l' & Hl' & _).
    destruct l' as [|? [|]]; discriminate.
  - destruct (is_Exception e); simpl; intros Heq.
    + destruct (reads_then_write _ _ _ _ _ _ Hreads Heq) as (l' & Hl' & _).
      destruct l' as [|? [|]]; discriminate.
    + rewrite <-(app_nil_r (_.2)) in Heq.
      destruct (reads_then_write _ _ _ _ _ _ Hreads Heq) as (l' & Hl' & _).
      destruct l'; discriminate.
  - destruct (is_Exception e); simpl; rewrite <-?app_assoc; simpl; intros Heq.
    + destruct (reads_then_write _ _ _ _ _ _ Hreads Heq) as (l' & Hl' & ->).
      destruct l' as [|? [|? [|]]]; try discriminate.
      injection Hl' as <- <- <-. rewrite app_nil_r.
      split_and!; [by exists ps, c|done..|right; by eexists _, _, _].
    + destruct (reads_then_write _ _ _ _ _ _ Hreads Heq) as (l' & Hl' & ->).
      destruct l' as [|? [|]]; try discriminate.
      injection Hl' as <- <- <-. rewrite app_nil_r.
      split_and!; [by exists ps, c|done..|by left].
  - simpl. intros Heq.
    destruct (reads_then_write _ _ _ _ _ _ Hreads Heq) as (l' & Hl' & ->).
    destruct l' as [|? [|? [|]]]; try discriminate.
    injection Hl' as <- <- <-. rewrite app_nil_r.
    split_and!; [by exists ps, c|done..|right; by eexists _, _, _].
Qed.

Lemma script_write_witness :
  "/home/u/proj/cortex-snapshot.json"
  = fspath (truediv (Path (cwd read_only_project)) OUTPUT_FILENAME) ∧
  Forall read_event [EvOpen "/home/u/proj/a.py"; EvRead None; EvClose].
Proof.
  destruct (script_write read_only_project
              "/home/u/proj/cortex-snapshot.json"
              (MkSnapshot "1.2.0" (now read_only_project) [FileNode "a.py" "a.py"]
                          (<["a.py" := "A"]> ∅))
              [EvOpen "/home/u/proj/a.py"; EvRead None; EvClose]
              [EvShowMessage "Критическая ошибка"
                 (error_message read_only_project PermissionError) true])
    as (_ & Hpath & _ & Hreads & _).
  - by vm_compute.
  - by split.
Defined.

(** X17. The script ends in one of three ways: with exit code 0, with
    exit code 1, or by an exception that is not an [Exception] and that
    nothing catches. When it exits, the last thing it does is to show a
    message, as an error exactly when the exit code is 1. *)
Theorem script_status (env : environment) :
  (process_status (script env) = Exited 0 ∨
   process_status (script env) = Exited 1 ∨
   ∃ e, process_status (script env) = Traceback e ∧ is_Exception e = false) ∧
  (∀ c, process_status (script env) = Exited c →
        ∃ title message,
          last (script env).2 = Some (EvShowMessage title message (bool_decide (c = 1)))).
Proof.
  rewrite script_of_main. unfold process_status.
  assert (∀ (t : list fs_event) ev ev', last (t ++ [ev; ev']) = Some ev') as Hlast2.
  { intros t ev ev'. change [ev; ev'] with ([ev] ++ [ev']).
    rewrite app_assoc. apply last_snoc. }
  destruct (main_cases env)
    as [(e & Hs & ->)|[(c & ti & m & Hs & ->)|[(ps & c & e & Hs & Hne & Hb & ->)|
        [(ps & c & tr & e & Hs & Hne & Hb & Hw & ->)|
         (ps & c & tr & ti & m & Hs & Hne & Hb & Hw & ->)]]]].
  - destruct (is_Exception e) eqn:He; simpl.
    + split; [by right; left|]. intros c [= <-]. do 2 eexists. apply last_snoc.
    + split; [right; right; by exists e|]. by intros c.
  - simpl. split; [by left|]. intros c' [= <-]. do 2 eexists. apply last_snoc.
  - destruct (is_Exception e) eqn:He; simpl.
    + split; [by right; left|]. intros c' [= <-]. do 2 eexists. apply last_snoc.
    + split; [right; right; by exists e|]. by intros c'.
  - destruct (is_Exception e) eqn:He; simpl.
    + split; [by right; left|]. intros c' [= <-]. do 2 eexists. apply last_snoc.
    + split; [right; right; by exists e|]. by intros c'.
  - simpl. split; [by left|]. intros c' [= <-]. do 2 eexists. apply Hlast2.
Qed.

Lemma script_status_witness :
  ∃ title message,
    last (script read_only_project).2 = Some (EvShowMessage title message true).
Proof.
  apply (proj2 (script_status read_only_project) 1). reflexivity.
Defined.
